(** * QA_Log_Summarizer: a shallow embedding and its verification

    The program locates the latest [QA_Log_*.md] file of the working
    directory, slices five headed sections out of its text with regular
    expressions, and renders them into a status report.

    Python strings are sequences of Unicode code points, so a string is a
    list of code points here.  Exceptions are values of an error monad.
    The regular expressions of the source are values of a small syntax
    tree, run by a backtracking matcher that follows the priorities of
    Python's [re] module (leftmost start, first alternative first, lazy
    star shortest first, greedy star longest first). *)

From Stdlib Require Import String Ascii.
From Stdlib Require Import List NArith Bool Arith Lia.
Import ListNotations.

Set Implicit Arguments.

(** ** Strings *)

Definition char := N.
Definition str := list char.

(** An ASCII literal of the source as a list of code points. *)
Definition lit (s : string) : str :=
  List.map N_of_ascii (list_ascii_of_string s).

Definition NL : char := 10%N.
Definition DASH : char := 45%N.
Definition DOT : char := 46%N.

Fixpoint str_eqb (a b : str) : bool :=
  match a, b with
  | [], [] => true
  | c :: a', d :: b' => N.eqb c d && str_eqb a' b'
  | _, _ => false
  end.

(** [s.startswith(p)] and the rest of [s] behind the prefix. *)
Fixpoint strip_prefix (p s : str) : option str :=
  match p with
  | [] => Some s
  | c :: p' =>
      match s with
      | [] => None
      | d :: s' => if N.eqb c d then strip_prefix p' s' else None
      end
  end.

Definition starts_with (p s : str) : bool :=
  match strip_prefix p s with Some _ => true | None => false end.

(** The code points for which [str.isspace] holds: they are what
    [str.strip()] without an argument removes. *)
Definition isspace (c : char) : bool :=
  ((9 <=? c) && (c <=? 13) || (28 <=? c) && (c <=? 32) ||
   (c =? 133) || (c =? 160) || (c =? 5760) ||
   (8192 <=? c) && (c <=? 8202) ||
   (c =? 8232) || (c =? 8233) || (c =? 8239) || (c =? 8287) ||
   (c =? 12288))%N.

(** Membership in the argument of [str.strip(chars)]. *)
Definition in_chars (chars : str) (c : char) : bool :=
  existsb (N.eqb c) chars.

Fixpoint lstrip_by (p : char -> bool) (s : str) : str :=
  match s with
  | [] => []
  | c :: s' => if p c then lstrip_by p s' else s
  end.

Definition rstrip_by (p : char -> bool) (s : str) : str :=
  rev (lstrip_by p (rev s)).

Definition strip_by (p : char -> bool) (s : str) : str :=
  rstrip_by p (lstrip_by p s).

(** [s.strip()] *)
Definition strip (s : str) : str := strip_by isspace s.

(** [s.strip(chars)] *)
Definition strip_chars (chars : str) (s : str) : str :=
  strip_by (in_chars chars) s.

(** [s.split("\n")]: the pieces between the newlines, never an empty
    list. *)
Fixpoint split_nl (s : str) : list str :=
  match s with
  | [] => [[]]
  | c :: s' =>
      if N.eqb c NL then [] :: split_nl s'
      else match split_nl s' with
           | [] => [[c]]
           | l :: ls => (c :: l) :: ls
           end
  end.

(** ["\n".join(items)] *)
Fixpoint join_nl (items : list str) : str :=
  match items with
  | [] => []
  | [x] => x
  | x :: rest => x ++ NL :: join_nl rest
  end.

(** Comparison of two strings as Python compares them: code point by
    code point, a proper prefix being smaller. *)
Fixpoint str_compare (a b : str) : comparison :=
  match a, b with
  | [], [] => Eq
  | [], _ :: _ => Lt
  | _ :: _, [] => Gt
  | c :: a', d :: b' =>
      match N.compare c d with
      | Eq => str_compare a' b'
      | r => r
      end
  end.

Definition str_ltb (a b : str) : bool :=
  match str_compare a b with Lt => true | _ => false end.

(** ** Exceptions *)

Inductive exn :=
| OSError
| UnicodeDecodeError
| UnicodeEncodeError
| AttributeError
| KeyError (key : str).

Inductive result (A : Type) :=
| Ok (a : A)
| Raise (e : exn).
Arguments Ok {A} a.
Arguments Raise {A} e.

Definition bind {A B} (m : result A) (k : A -> result B) : result B :=
  match m with
  | Ok a => k a
  | Raise e => Raise e
  end.

Notation "x <- m ;; k" := (bind m (fun x => k))
  (at level 61, m at next level, right associativity).

(** ** Regular expressions *)

Module Re.

(** The constructs the patterns of the program use.  A star is applied
    to a one-character class only, as in [.*?] and [.*]. *)
Inductive regex :=
| Class (p : char -> bool)
| Seq (r1 r2 : regex)
| Alt (r1 r2 : regex)
| LazyStar (p : char -> bool)
| GreedyStar (p : char -> bool)
| Repeat (n : nat) (r : regex)
| Group (r : regex)
| Lookahead (r : regex)
| EndZ
| Empty.

Definition Chr (c : char) : regex := Class (N.eqb c).

(** [.] under [re.DOTALL] *)
Definition Dot : regex := Class (fun _ => true).

(** A run of literal characters: what an escaped literal compiles to. *)
Fixpoint Lits (s : str) : regex :=
  match s with
  | [] => Empty
  | c :: s' => Seq (Chr c) (Lits s')
  end.

(** The text captured by group 1, when the group took part. *)
Definition groups := option str.

Definition cont := str -> groups -> option groups.

Fixpoint lazy_loop (p : char -> bool) (s : str) (g : groups) (k : cont)
  : option groups :=
  match k s g with
  | Some m => Some m
  | None =>
      match s with
      | [] => None
      | c :: s' => if p c then lazy_loop p s' g k else None
      end
  end.

Fixpoint greedy_loop (p : char -> bool) (s : str) (g : groups) (k : cont)
  : option groups :=
  match s with
  | [] => k s g
  | c :: s' =>
      if p c then
        match greedy_loop p s' g k with
        | Some m => Some m
        | None => k s g
        end
      else k s g
  end.

(** The backtracking matcher: [rmatch r s g k] matches [r] at the head
    of [s] and hands what is left of [s] to the continuation [k]; when
    [k] fails the next way of matching [r] is tried. *)
Fixpoint rmatch (r : regex) (s : str) (g : groups) (k : cont)
  : option groups :=
  match r with
  | Class p =>
      match s with
      | [] => None
      | c :: s' => if p c then k s' g else None
      end
  | Seq r1 r2 => rmatch r1 s g (fun s' g' => rmatch r2 s' g' k)
  | Alt r1 r2 =>
      match rmatch r1 s g k with
      | Some m => Some m
      | None => rmatch r2 s g k
      end
  | LazyStar p => lazy_loop p s g k
  | GreedyStar p => greedy_loop p s g k
  | Repeat n r1 =>
      (fix rep (n : nat) (s : str) (g : groups) (k : cont) :=
         match n with
         | O => k s g
         | S n' => rmatch r1 s g (fun s' g' => rep n' s' g' k)
         end) n s g k
  | Group r1 =>
      rmatch r1 s g
        (fun s' _ => k s' (Some (firstn (length s - length s') s)))
  | Lookahead r1 =>
      match rmatch r1 s g (fun _ g' => Some g') with
      | Some g' => k s g'
      | None => None
      end
  | EndZ => match s with [] => k s g | _ :: _ => None end
  | Empty => k s g
  end.

(** [re.match]: the pattern at the start of the string. *)
Definition re_match (r : regex) (s : str) : option groups :=
  rmatch r s None (fun _ g => Some g).

(** [re.search]: the first position, from the left, where the pattern
    matches. *)
Fixpoint search (r : regex) (s : str) : option groups :=
  match re_match r s with
  | Some m => Some m
  | None =>
      match s with
      | [] => None
      | _ :: s' => search r s'
      end
  end.

(** [m.group(1)]: [None] when the group did not take part. *)
Definition group1 (m : groups) : option str := m.

End Re.

(** ** The program *)

(** A Python dict with string keys: the entries in insertion order, one
    per key. *)
Definition dict := list (str * list str).

Fixpoint getitem (d : dict) (key : str) : result (list str) :=
  match d with
  | [] => Raise (KeyError key)
  | (k, v) :: d' => if str_eqb k key then Ok v else getitem d' key
  end.

(** [d[key] = value]: an existing key keeps its place. *)
Fixpoint setitem (d : dict) (key : str) (value : list str) : dict :=
  match d with
  | [] => [(key, value)]
  | (k, v) :: d' =>
      if str_eqb k key then (k, value) :: d'
      else (k, v) :: setitem d' key value
  end.

Definition keys (d : dict) : list str := List.map fst d.

(** The five section labels, each with its leading glyph. *)
Definition TASKS_DONE : str := 0x2705%N :: lit " Tasks Done".
Definition BUGS_FOUND : str := 0x1f41b%N :: lit " Bugs Found".
Definition FIXES_VERIFIED : str := 0x1f6e0%N :: lit " Fixes Verified".
Definition OBSERVATIONS : str := 0x1f4c8%N :: lit " Observations".
Definition NEXT_STEPS : str := 0x1f501%N :: lit " Next Steps".

Definition SECTION_NAMES : list str :=
  [TASKS_DONE; BUGS_FOUND; FIXES_VERIFIED; OBSERVATIONS; NEXT_STEPS].

(** A date of the calendar, as [datetime.today()] gives it. *)
Record date := { year : N; month : N; day : N }.

(** What the program sees of its environment: the names in the working
    directory, the decoded text of a file (or the exception that [open]
    or [read] raises), and the local date. *)
Record world := {
  listdir : list str;
  read_text : str -> result str;
  today : date
}.

(** *** find_latest_log *)

(** [fnmatch.translate("QA_Log_*.md")]: [(?s:QA_Log_.*\.md)\Z]. *)
Definition glob_pattern : Re.regex :=
  Re.Seq (Re.Lits (lit "QA_Log_"))
    (Re.Seq (Re.GreedyStar (fun _ => true))
       (Re.Seq (Re.Lits (lit ".md")) Re.EndZ)).

Definition fnmatch (name : str) : bool :=
  match Re.re_match glob_pattern name with
  | Some _ => true
  | None => false
  end.

Definition ishidden (name : str) : bool := starts_with (lit ".") name.

(** [glob.glob("QA_Log_*.md")] on a file system that tells upper from
    lower case: the names of the directory that are not hidden and
    match the pattern, in directory order. *)
Definition glob (w : world) : list str :=
  filter fnmatch (filter (fun name => negb (ishidden name)) (listdir w)).

Fixpoint insert_desc (x : str) (l : list str) : list str :=
  match l with
  | [] => [x]
  | y :: l' => if str_ltb x y then y :: insert_desc x l' else x :: l
  end.

(** [files.sort(reverse=True)]: a stable sort, greatest first. *)
Definition sort_reverse (files : list str) : list str :=
  fold_right insert_desc [] files.

(** [None] is Python's [None].  In the second branch [files] is not
    empty, so [files[0]] exists. *)
Definition find_latest_log (w : world) : option str :=
  let files := glob w in
  match files with
  | [] => None
  | _ :: _ => hd_error (sort_reverse files)
  end.

(** *** parse_log *)

Definition initial_sections : dict :=
  [ (TASKS_DONE, []);
    (BUGS_FOUND, []);
    (FIXES_VERIFIED, []);
    (OBSERVATIONS, []);
    (NEXT_STEPS, []) ].

(** [rf"### {re.escape(section)}\n(.*?)(?=\n###|\Z)"] under
    [re.DOTALL]; the escaped label matches itself, character by
    character. *)
Definition section_pattern (section : str) : Re.regex :=
  Re.Seq (Re.Lits (lit "### "))
    (Re.Seq (Re.Lits section)
       (Re.Seq (Re.Chr NL)
          (Re.Seq (Re.Group (Re.LazyStar (fun _ => true)))
             (Re.Lookahead
                (Re.Alt (Re.Seq (Re.Chr NL) (Re.Lits (lit "###")))
                   Re.EndZ))))).

Definition placeholder (section : str) : str :=
  lit "No data provided for " ++ section.

Definition truthy (s : str) : bool :=
  match s with [] => false | _ :: _ => true end.

(** [line.strip("- ").strip()] *)
Definition strip_bullet (line : str) : str :=
  strip (strip_chars (lit "- ") line).

(** The list comprehension over the lines of a captured block. *)
Definition block_lines (block : str) : list str :=
  List.map strip_bullet
    (filter (fun line => truthy (strip line)) (split_nl (strip block))).

(** The body of the loop of [parse_log] for one label. *)
Definition parse_section (content section : str) : result (list str) :=
  match Re.search (section_pattern section) content with
  | Some m =>
      match Re.group1 m with
      | None => Raise AttributeError
      | Some block =>
          let lines := block_lines block in
          Ok (match lines with
              | [] => [placeholder section]
              | _ :: _ => lines
              end)
      end
  | None => Ok [placeholder section]
  end.

Fixpoint parse_loop (content : str) (todo : list str) (sections : dict)
  : result dict :=
  match todo with
  | [] => Ok sections
  | section :: todo' =>
      v <- parse_section content section ;;
      parse_loop content todo' (setitem sections section v)
  end.

(** [parse_log] once the file is read. *)
Definition parse_content (content : str) : result dict :=
  parse_loop content (keys initial_sections) initial_sections.

Definition parse_log (w : world) (file_path : str) : result dict :=
  content <- read_text w file_path ;;
  parse_content content.

(** *** generate_report *)

Definition list_block (items : list str) : str :=
  join_nl (List.map (fun item => lit "- " ++ item) items).

Definition generate_report (sections : dict) (date : str) : result str :=
  tasks <- getitem sections TASKS_DONE ;;
  fixes <- getitem sections FIXES_VERIFIED ;;
  obs <- getitem sections OBSERVATIONS ;;
  let key_takeaways := tasks ++ fixes ++ obs in
  fixes' <- getitem sections FIXES_VERIFIED ;;
  obs' <- getitem sections OBSERVATIONS ;;
  let progress_summary := fixes' ++ obs' in
  next_steps <- getitem sections NEXT_STEPS ;;
  bugs <- getitem sections BUGS_FOUND ;;
  Ok (lit "### " ++ 0x1f4e3%N :: lit " Project Update: " ++ date ++ [NL]
      ++ [NL]
      ++ lit "#### " ++ 0x1f511%N :: lit " Key Takeaways" ++ [NL]
      ++ list_block key_takeaways ++ [NL]
      ++ [NL]
      ++ lit "#### " ++ 0x1f41b%N :: lit " Bugs Found" ++ [NL]
      ++ list_block bugs ++ [NL]
      ++ [NL]
      ++ lit "#### " ++ 0x1f4ca%N :: lit " Progress Summary" ++ [NL]
      ++ list_block progress_summary ++ [NL]
      ++ [NL]
      ++ lit "#### " ++ 0x1f501%N :: lit " Next Steps" ++ [NL]
      ++ list_block next_steps ++ [NL]).

(** *** extract_date_from_filename and main

    [extract_date_from_filename] returns [match.group(1)], which Python
    types as a string or [None]; [None] stands for Python's [None]. *)

Definition digit (n : N) : char := (48 + n mod 10)%N.

(** [strftime('%Y-%m-%d')] of a date whose year has four digits, as
    every date of the system clock has. *)
Definition strftime_Ymd (d : date) : str :=
  [digit (year d / 1000); digit (year d / 100); digit (year d / 10);
   digit (year d)]
  ++ [DASH] ++ [digit (month d / 10); digit (month d)]
  ++ [DASH] ++ [digit (day d / 10); digit (day d)].

(** How an f-string renders a value that is a string or [None]. *)
Definition format_value (v : option str) : str :=
  match v with
  | Some s => s
  | None => lit "None"
  end.

Definition NO_LOG_MESSAGE : str :=
  0x274c%N :: lit " No QA_Log_*.md file found in this directory.".

Section Interpreter.

(** The decimal digits of the interpreter's Unicode database (category
    Nd): what [\d] matches in a pattern over [str]. *)
Variable unicode_decimal : char -> bool.

(** [r"QA_Log_(\d{4}-\d{2}-\d{2})\.md"] *)
Definition date_pattern : Re.regex :=
  Re.Seq (Re.Lits (lit "QA_Log_"))
    (Re.Seq
       (Re.Group
          (Re.Seq (Re.Repeat 4 (Re.Class unicode_decimal))
             (Re.Seq (Re.Chr DASH)
                (Re.Seq (Re.Repeat 2 (Re.Class unicode_decimal))
                   (Re.Seq (Re.Chr DASH)
                      (Re.Repeat 2 (Re.Class unicode_decimal)))))))
       (Re.Seq (Re.Chr DOT) (Re.Lits (lit "md")))).

Definition extract_date_from_filename (w : world) (filename : str)
  : option str :=
  match Re.search date_pattern filename with
  | Some m => Re.group1 m
  | None => Some (strftime_Ymd (today w))
  end.

(** What [sys.stdout.write] does with a text: [None] when the text is
    written, or the exception the write raises, for instance
    [UnicodeEncodeError] when the encoding of the stream has no code for
    a character of the text. *)
Variable stdout_write : str -> option exn.

(** [print(text)]: the text is written, then the newline.  The result
    is what reaches standard output, or the exception of the write that
    failed. *)
Definition print (text : str) : result str :=
  match stdout_write text with
  | Some e => Raise e
  | None =>
      match stdout_write [NL] with
      | Some e => Raise e
      | None => Ok (text ++ [NL])
      end
  end.

(** [main]: what the run writes to standard output, or the exception
    that ends it. *)
Definition main (w : world) : result str :=
  match find_latest_log w with
  | None => print NO_LOG_MESSAGE
  | Some log_file =>
      if negb (truthy log_file) then print NO_LOG_MESSAGE
      else
        sections <- parse_log w log_file ;;
        let date := extract_date_from_filename w log_file in
        report <- generate_report sections (format_value date) ;;
        print report
  end.

End Interpreter.

(** The ASCII digits, which every version of the database has. *)
Definition ascii_digit (c : char) : bool := ((48 <=? c) && (c <=? 57))%N.

(** A standard output with a strict encoding: a text is written when
    every character of it has a code. *)
Definition strict_stdout (encodable : char -> bool) (text : str)
  : option exn :=
  if forallb encodable text then None else Some UnicodeEncodeError.

(** UTF-8 has a code for every code point but the surrogates. *)
Definition utf8_stdout : str -> option exn :=
  strict_stdout
    (fun c => ((c <? 0xd800) || (0xdfff <? c) && (c <=? 0x10ffff))%N).

(** ASCII has a code for the code points below 128 only. *)
Definition ascii_stdout : str -> option exn :=
  strict_stdout (fun c => (c <? 128)%N).

(** ** Vocabulary of the statements *)

(** [p] occurs in [s]. *)
Definition occurs (p s : str) : Prop :=
  exists a b, s = a ++ p ++ b.

(** [s] is [a ++ p ++ b] and no occurrence of [p] in [s] starts before
    this one. *)
Definition first_occurrence (p s a b : str) : Prop :=
  s = a ++ p ++ b /\
  forall a' b', s = a' ++ p ++ b' -> length a <= length a'.

(** The heading of a section, with the newline that ends it. *)
Definition heading (section : str) : str :=
  lit "### " ++ section ++ [NL].

Definition HASHES : str := lit "###".

(** What follows the first occurrence of [p] in [s]. *)
Fixpoint find_after (p s : str) : option str :=
  match strip_prefix p s with
  | Some r => Some r
  | None =>
      match s with
      | [] => None
      | _ :: s' => find_after p s'
      end
  end.

(** The shortest prefix of [s] that is followed by a newline and
    [###], or by the end of [s]. *)
Fixpoint capture (s : str) : str :=
  match s with
  | [] => []
  | c :: s' => if starts_with (NL :: HASHES) s then [] else c :: capture s'
  end.

(** The lines of a text before its first line that begins with [###]. *)
Fixpoint before_heading (lines : list str) : list str :=
  match lines with
  | [] => []
  | l :: ls => if starts_with HASHES l then [] else l :: before_heading ls
  end.

(** The items the parser stores for a label, given the text. *)
Definition section_items (content section : str) : list str :=
  match find_after (heading section) content with
  | Some rest =>
      match block_lines (capture rest) with
      | [] => [placeholder section]
      | l :: ls => l :: ls
      end
  | None => [placeholder section]
  end.

(** A string of one line. *)
Definition one_line (s : str) : Prop := ~ In NL s.

(** A bullet line: one line that begins with the dash of the marker. *)
Definition bullet_line (l : str) : Prop :=
  (exists x, l = DASH :: x) /\ one_line l.

(** The string ends with a character that is not white space. *)
Definition ends_black (l : str) : Prop :=
  exists u z, l = u ++ [z] /\ isspace z = false.

(** The text has a section for the label: the first occurrence of its
    heading is followed by the bullet lines, then by white space only up
    to the next line that begins with [###] or to the end of the text.
    White space at the end of the last bullet line counts as part of
    the white space behind the lines. *)
Definition section_with (content section : str) (lines : list str) : Prop :=
  exists pre gap tail,
    first_occurrence (heading section) content pre
      (join_nl lines ++ gap ++ tail) /\
    lines <> [] /\
    Forall bullet_line lines /\
    ends_black (last lines []) /\
    Forall (fun c => isspace c = true) gap /\
    (tail = [] \/
     (exists g, gap = g ++ [NL]) /\ starts_with HASHES tail = true).

(** A character that neither [strip()] nor [strip("- ")] removes. *)
Definition kept (c : char) : Prop :=
  isspace c = false /\ in_chars (lit "- ") c = false.

(** An item that begins and ends with such a character. *)
Definition clean_item (x : str) : Prop :=
  exists c t u z, x = c :: t /\ x = u ++ [z] /\ kept c /\ kept z.

(** A log whose five headings stand one under the other, with no line
    between them. *)
Definition EMPTY_SECTIONS : str :=
  heading TASKS_DONE ++ heading BUGS_FOUND ++ heading FIXES_VERIFIED
  ++ heading OBSERVATIONS ++ heading NEXT_STEPS.

(** A log with one section, which holds a bullet and a line of dashes. *)
Definition DASH_LINE_LOG : str :=
  heading TASKS_DONE ++ lit "- a" ++ [NL] ++ lit "---" ++ [NL].

(** A log whose only heading is of the fourth level. *)
Definition DEEPER_HEADING_LOG : str :=
  lit "#" ++ heading TASKS_DONE ++ lit "- a" ++ [NL].

(** Example 3 of the specification. *)
Definition EXAMPLE_LOG : str :=
  heading BUGS_FOUND ++ lit "- Crash on save" ++ [NL]
  ++ lit "- Typo in UI" ++ [NL]
  ++ heading NEXT_STEPS ++ lit "- Fix crash".

(** A log with the five sections, one bullet each. *)
Definition FULL_LOG : str :=
  heading TASKS_DONE ++ lit "- wrote tests" ++ [NL] ++ [NL]
  ++ heading BUGS_FOUND ++ lit "- crash on save" ++ [NL]
  ++ heading FIXES_VERIFIED ++ lit "- login fix" ++ [NL]
  ++ heading OBSERVATIONS ++ lit "- slow start" ++ [NL]
  ++ heading NEXT_STEPS ++ lit "- fix crash" ++ [NL].

(** Lexicographic order on strings, by code points. *)
Inductive lex_le : str -> str -> Prop :=
| lex_nil b : lex_le [] b
| lex_lt c d a b : (c < d)%N -> lex_le (c :: a) (d :: b)
| lex_eq c a b : lex_le a b -> lex_le (c :: a) (c :: b).

(** The names [QA_Log_<anything>.md]. *)
Definition log_name (name : str) : Prop :=
  exists mid, name = lit "QA_Log_" ++ mid ++ lit ".md".

(** [n] characters of the class [p], and what follows them. *)
Fixpoint take_class (p : char -> bool) (n : nat) (s : str) : option str :=
  match n with
  | O => Some s
  | S n' =>
      match s with
      | [] => None
      | c :: s' => if p c then take_class p n' s' else None
      end
  end.

Section DateShape.

Variable is_digit : char -> bool.

Definition all_digits (s : str) : Prop := Forall (fun c => is_digit c = true) s.

(** Four digits, a dash, two digits, a dash, two digits. *)
Definition date_text (d : str) : Prop :=
  exists y m dd,
    d = y ++ [DASH] ++ m ++ [DASH] ++ dd /\
    length y = 4 /\ length m = 2 /\ length dd = 2 /\
    all_digits y /\ all_digits m /\ all_digits dd.

(** [QA_Log_], a date text and [.md] occur in [s] from position
    [length a] on. *)
Definition dated_at (s a d b : str) : Prop :=
  s = a ++ lit "QA_Log_" ++ d ++ lit ".md" ++ b /\ date_text d.

End DateShape.

(** A parsed log: the five keys in their order, each with at least one
    item, each item a single line. *)
Definition parsed_log (d : dict) : Prop :=
  keys d = SECTION_NAMES /\
  Forall (fun kv => snd kv <> [] /\ Forall one_line (snd kv)) d.

(** The lines of a text, each closed by a newline. *)
Definition unlines (lines : list str) : str :=
  concat (List.map (fun l => l ++ [NL]) lines).

Definition bullet (item : str) : str := lit "- " ++ item.

(** The lines of the report. *)
Definition REPORT_TITLE (date : str) : str :=
  lit "### " ++ 0x1f4e3%N :: lit " Project Update: " ++ date.
Definition KEY_TAKEAWAYS_HEADING : str :=
  lit "#### " ++ 0x1f511%N :: lit " Key Takeaways".
Definition BUGS_FOUND_HEADING : str :=
  lit "#### " ++ 0x1f41b%N :: lit " Bugs Found".
Definition PROGRESS_SUMMARY_HEADING : str :=
  lit "#### " ++ 0x1f4ca%N :: lit " Progress Summary".
Definition NEXT_STEPS_HEADING : str :=
  lit "#### " ++ 0x1f501%N :: lit " Next Steps".

Definition report_lines (date : str) (tasks bugs fixes obs next : list str)
  : list str :=
  [REPORT_TITLE date; []; KEY_TAKEAWAYS_HEADING]
  ++ List.map bullet (tasks ++ fixes ++ obs)
  ++ [[]; BUGS_FOUND_HEADING]
  ++ List.map bullet bugs
  ++ [[]; PROGRESS_SUMMARY_HEADING]
  ++ List.map bullet (fixes ++ obs)
  ++ [[]; NEXT_STEPS_HEADING]
  ++ List.map bullet next.

(** The mapping has the five keys, with these values. *)
Definition has_sections (d : dict) (tasks bugs fixes obs next : list str)
  : Prop :=
  getitem d TASKS_DONE = Ok tasks /\
  getitem d BUGS_FOUND = Ok bugs /\
  getitem d FIXES_VERIFIED = Ok fixes /\
  getitem d OBSERVATIONS = Ok obs /\
  getitem d NEXT_STEPS = Ok next.

(** The parsed log of [FULL_LOG]. *)
Definition FULL_PARSED : dict :=
  [ (TASKS_DONE, [lit "wrote tests"]);
    (BUGS_FOUND, [lit "crash on save"]);
    (FIXES_VERIFIED, [lit "login fix"]);
    (OBSERVATIONS, [lit "slow start"]);
    (NEXT_STEPS, [lit "fix crash"]) ].

(** A directory whose only log cannot be read. *)
Definition UNREADABLE_WORLD : world :=
  {| listdir := [lit "QA_Log_2024-03-01.md"];
     read_text := fun _ => Raise OSError;
     today := {| year := 2024; month := 3; day := 2 |} |}.

(** A directory with two logs and another file; every file reads as
    [FULL_LOG]. *)
Definition SAMPLE_WORLD : world :=
  {| listdir := [lit "QA_Log_2024-01-01.md"; lit "notes.txt";
                 lit "QA_Log_2024-02-15.md"];
     read_text := fun _ => Ok FULL_LOG;
     today := {| year := 2024; month := 3; day := 2 |} |}.


(** A directory without a log. *)
Definition NO_LOG_WORLD : world :=
  {| listdir := [lit "notes.txt"];
     read_text := fun _ => Raise OSError;
     today := {| year := 2024; month := 3; day := 2 |} |}.

(** *** The layout of a section in a log *)

(** A line of a section: the bullet line of an item, with the white
    space that may follow the item on its line, or a blank line. *)
Inductive entry :=
| Item (x trail : str)
| Blank (b : str).





(** The last entry is an item; the white space behind it on its line
    counts with the white space that follows the section. *)
Definition ends_with_item (entries : list entry) : Prop :=
  match last entries (Blank []) with
  | Item _ [] => True
  | _ => False
  end.







(** ** Further vocabulary *)

(** A log whose first section holds a blank line only. *)
Definition BLANK_SECTION_LOG : str :=
  heading TASKS_DONE ++ [NL] ++ heading BUGS_FOUND ++ lit "- x" ++ [NL].

(** A log whose first heading is followed at once by the next one. *)
Definition ADJACENT_LOG : str :=
  heading TASKS_DONE ++ heading BUGS_FOUND ++ lit "- x" ++ [NL]
  ++ heading NEXT_STEPS ++ lit "- y".

(** The number a string of ASCII digits writes. *)
Definition digit_value (c : char) : N := (c - 48)%N.

Definition number (s : str) : N :=
  fold_left (fun acc c => (10 * acc + digit_value c)%N) s 0%N.

(** A date of the calendar with a year of four digits. *)
Definition calendar_date (d : date) : Prop :=
  (1000 <= year d <= 9999)%N /\ (1 <= month d <= 12)%N /\
  (1 <= day d <= 31)%N.

(** The text writes the date as YYYY-MM-DD: four ASCII digits that write
    the year, a dash, two that write the month, a dash, two that write
    the day. *)
Definition reads_as (text : str) (d : date) : Prop :=
  exists y m dd,
    text = y ++ [DASH] ++ m ++ [DASH] ++ dd /\
    length y = 4 /\ length m = 2 /\ length dd = 2 /\
    Forall (fun c => ascii_digit c = true) (y ++ m ++ dd) /\
    number y = year d /\ number m = month d /\ number dd = day d.

(** The date of a date text as a number: [2024-03-01] is 20240301. *)
Definition date_number (d : str) : N :=
  (number (firstn 4 d) * 10000 + number (firstn 2 (skipn 5 d)) * 100
   + number (firstn 2 (skipn 8 d)))%N.

(** The name of the log of a date. *)
Definition dated_name (d : str) : str := lit "QA_Log_" ++ d ++ lit ".md".

(** Two directories with the same logs, listed in another order. *)
Definition LISTING_A : list str :=
  [lit "QA_Log_2024-01-01.md"; lit "notes.txt"; lit "QA_Log_2024-02-15.md"].
Definition LISTING_B : list str :=
  [lit "QA_Log_2024-02-15.md"; lit "QA_Log_2024-01-01.md"; lit "notes.txt";
   lit "QA_Log_2024-01-01.md"].

Definition world_of (names : list str) : world :=
  {| listdir := names;
     read_text := fun _ => Ok FULL_LOG;
     today := {| year := 2024; month := 3; day := 2 |} |}.

(** The keys in the order in which [generate_report] first looks them
    up. *)
Definition LOOKUP_ORDER : list str :=
  [TASKS_DONE; FIXES_VERIFIED; OBSERVATIONS; NEXT_STEPS; BUGS_FOUND].

(** A mapping without the observations. *)
Definition NO_OBSERVATIONS : dict :=
  [ (TASKS_DONE, [lit "a"]); (BUGS_FOUND, [lit "b"]);
    (FIXES_VERIFIED, [lit "c"]); (NEXT_STEPS, [lit "d"]) ].

(** The report of a text and a date: the template filled with the items
    of the five sections of the text. *)
Definition report_of (content date : str) : str :=
  unlines
    (report_lines date
       (section_items content TASKS_DONE)
       (section_items content BUGS_FOUND)
       (section_items content FIXES_VERIFIED)
       (section_items content OBSERVATIONS)
       (section_items content NEXT_STEPS)).


(** A second copy of the first section, as text to append to a log. *)
Definition SECOND_COPY : str :=
  lit " " ++ TASKS_DONE ++ [NL] ++ lit "- other" ++ [NL].

(** * Properties *)

(** ** Strings *)

Lemma strip_prefix_app (p s : str) : strip_prefix p (p ++ s) = Some s.
Proof.
  induction p as [|c p IH]; simpl; [reflexivity|].
  now rewrite N.eqb_refl.
Qed.

Lemma strip_prefix_Some (p s r : str) :
  strip_prefix p s = Some r -> s = p ++ r.
Proof.
  revert s; induction p as [|c p IH]; simpl; intros s H.
  - now inversion H.
  - destruct s as [|d s]; [discriminate|].
    destruct (N.eqb_spec c d); [|discriminate].
    subst; f_equal; auto.
Qed.

Lemma strip_prefix_iff (p s r : str) :
  strip_prefix p s = Some r <-> s = p ++ r.
Proof.
  split; [apply strip_prefix_Some|].
  intros ->; apply strip_prefix_app.
Qed.

Lemma strip_prefix_None (p s : str) :
  strip_prefix p s = None <-> forall r, s <> p ++ r.
Proof.
  split.
  - intros H r ->. rewrite strip_prefix_app in H; discriminate.
  - intros H. destruct (strip_prefix p s) as [r|] eqn:E; [|reflexivity].
    apply strip_prefix_Some in E. now destruct (H r).
Qed.

Lemma strip_prefix_cat (p q s : str) :
  strip_prefix (p ++ q) s =
  match strip_prefix p s with
  | Some r => strip_prefix q r
  | None => None
  end.
Proof.
  revert s; induction p as [|c p IH]; simpl; intros s; [reflexivity|].
  destruct s as [|d s]; [reflexivity|].
  destruct (N.eqb c d); auto.
Qed.

Lemma starts_with_iff (p s : str) :
  starts_with p s = true <-> exists r, s = p ++ r.
Proof.
  unfold starts_with; split.
  - destruct (strip_prefix p s) as [r|] eqn:E; [|discriminate].
    intros _; exists r; now apply strip_prefix_Some.
  - intros [r ->]; now rewrite strip_prefix_app.
Qed.

(** ** The matcher *)

Lemma rmatch_Lits (p s : str) (g : Re.groups) (k : Re.cont) :
  Re.rmatch (Re.Lits p) s g k =
  match strip_prefix p s with
  | Some r => k r g
  | None => None
  end.
Proof.
  revert s; induction p as [|c p IH]; simpl; intros s; [reflexivity|].
  destruct s as [|d s]; [reflexivity|].
  destruct (N.eqb c d); auto.
Qed.

Lemma rmatch_Chr (c : char) (s : str) (g : Re.groups) (k : Re.cont) :
  Re.rmatch (Re.Chr c) s g k =
  match strip_prefix [c] s with
  | Some r => k r g
  | None => None
  end.
Proof.
  destruct s as [|d s]; simpl; [reflexivity|].
  destruct (N.eqb c d); reflexivity.
Qed.

Lemma rmatch_Repeat_Class (p : char -> bool) (n : nat) (s : str)
      (g : Re.groups) (k : Re.cont) :
  Re.rmatch (Re.Repeat n (Re.Class p)) s g k =
  match take_class p n s with
  | Some r => k r g
  | None => None
  end.
Proof.
  revert s; induction n as [|n IH]; intros s; [reflexivity|].
  destruct s as [|c s]; [reflexivity|].
  simpl. destruct (p c); [|reflexivity].
  apply IH.
Qed.

Lemma search_unfold (r : Re.regex) (s : str) :
  Re.search r s =
  match Re.re_match r s with
  | Some m => Some m
  | None =>
      match s with
      | [] => None
      | _ :: s' => Re.search r s'
      end
  end.
Proof. destruct s; reflexivity. Qed.

(** [re.search] fails exactly when the pattern matches at no position. *)
Lemma search_None (r : Re.regex) (s : str) :
  Re.search r s = None <->
  forall a b, s = a ++ b -> Re.re_match r b = None.
Proof.
  induction s as [|c s IH]; rewrite search_unfold.
  - split.
    + intros H a b E. symmetry in E. apply app_eq_nil in E as [-> ->].
      now destruct (Re.re_match r []).
    + intros H. now rewrite (H [] []).
  - split.
    + intros H a b E.
      destruct (Re.re_match r (c :: s)) eqn:M; [discriminate|].
      destruct a as [|x a]; simpl in E.
      * now subst b.
      * injection E as <- ->. exact (proj1 IH H a b eq_refl).
    + intros H. rewrite (H [] (c :: s) eq_refl).
      apply IH. intros a b ->. now apply (H (c :: a) b).
Qed.

(** [re.search] returns the match at the leftmost position that has
    one. *)
Lemma search_Some (r : Re.regex) (s : str) (m : Re.groups) :
  Re.search r s = Some m <->
  exists a b, s = a ++ b /\ Re.re_match r b = Some m /\
    forall a' b', s = a' ++ b' -> length a' < length a ->
                  Re.re_match r b' = None.
Proof.
  induction s as [|c s IH]; rewrite search_unfold.
  - split.
    + intros H. exists [], []. destruct (Re.re_match r []) eqn:M;
        [|discriminate].
      repeat split; auto. simpl; intros; lia.
    + intros (a & b & E & M & _). symmetry in E.
      apply app_eq_nil in E as [-> ->]. now rewrite M.
  - split.
    + destruct (Re.re_match r (c :: s)) eqn:M.
      * intros H; inversion H; subst. exists [], (c :: s).
        repeat split; auto. simpl; intros; lia.
      * intros H. apply IH in H as (a & b & -> & Mb & Hmin).
        exists (c :: a), b. repeat split; auto.
        intros a' b' E L. destruct a' as [|x a']; simpl in E.
        -- now subst b'.
        -- injection E as _ E. apply (Hmin a' b' E). simpl in L; lia.
    + intros (a & b & E & Mb & Hmin).
      destruct a as [|x a]; simpl in E.
      * subst b. now rewrite Mb.
      * injection E as <- ->.
        rewrite (Hmin [] (c :: a ++ b) eq_refl) by (simpl; lia).
        apply IH. exists a, b. repeat split; auto.
        intros a' b' E' L. apply (Hmin (c :: a') b'); [now rewrite E'|].
        simpl; lia.
Qed.

(** Unfolding equations of the matcher, one per construct. *)

Lemma rmatch_Seq r1 r2 s g k :
  Re.rmatch (Re.Seq r1 r2) s g k =
  Re.rmatch r1 s g (fun s' g' => Re.rmatch r2 s' g' k).
Proof. reflexivity. Qed.

Lemma rmatch_Alt r1 r2 s g k :
  Re.rmatch (Re.Alt r1 r2) s g k =
  match Re.rmatch r1 s g k with
  | Some m => Some m
  | None => Re.rmatch r2 s g k
  end.
Proof. reflexivity. Qed.

Lemma rmatch_EndZ s g k :
  Re.rmatch Re.EndZ s g k = match s with [] => k s g | _ :: _ => None end.
Proof. reflexivity. Qed.

Lemma rmatch_Group r1 s g k :
  Re.rmatch (Re.Group r1) s g k =
  Re.rmatch r1 s g
    (fun s' _ => k s' (Some (firstn (length s - length s') s))).
Proof. reflexivity. Qed.

Lemma rmatch_Lookahead r1 s g k :
  Re.rmatch (Re.Lookahead r1) s g k =
  match Re.rmatch r1 s g (fun _ g' => Some g') with
  | Some g' => k s g'
  | None => None
  end.
Proof. reflexivity. Qed.

Lemma rmatch_LazyStar p s g k :
  Re.rmatch (Re.LazyStar p) s g k = Re.lazy_loop p s g k.
Proof. reflexivity. Qed.

Lemma rmatch_GreedyStar p s g k :
  Re.rmatch (Re.GreedyStar p) s g k = Re.greedy_loop p s g k.
Proof. reflexivity. Qed.

(** ** The locator *)

Lemma greedy_any_None (s : str) (g : Re.groups) (k : Re.cont) :
  Re.greedy_loop (fun _ => true) s g k = None <->
  forall a b, s = a ++ b -> k b g = None.
Proof.
  induction s as [|c s IH]; simpl.
  - split.
    + intros H a b E. symmetry in E. now apply app_eq_nil in E as [-> ->].
    + intros H. now apply (H [] []).
  - split.
    + intros H a b E.
      destruct (Re.greedy_loop (fun _ => true) s g k) eqn:G; [discriminate|].
      destruct a as [|x a]; simpl in E.
      * now subst b.
      * injection E as _ ->. exact (proj1 IH eq_refl a b eq_refl).
    + intros H.
      assert (N : Re.greedy_loop (fun _ => true) s g k = None).
      { apply IH. intros a b ->. now apply (H (c :: a) b). }
      rewrite N. now apply (H [] (c :: s)).
Qed.

Lemma greedy_any_Some (s : str) (g : Re.groups) (k : Re.cont) m :
  Re.greedy_loop (fun _ => true) s g k = Some m ->
  exists a b, s = a ++ b /\ k b g = Some m.
Proof.
  induction s as [|c s IH]; simpl.
  - intros H. now exists [], [].
  - destruct (Re.greedy_loop (fun _ => true) s g k) eqn:G.
    + intros H; injection H as ->.
      destruct (IH eq_refl) as (a & b & -> & K).
      now exists (c :: a), b.
    + intros H. now exists [], (c :: s).
Qed.

(** [fnmatch] accepts the names with the prefix [QA_Log_] and the
    suffix [.md], whatever stands between them. *)
Lemma fnmatch_log_name (name : str) :
  fnmatch name = true <-> log_name name.
Proof.
  unfold fnmatch, Re.re_match, glob_pattern, log_name.
  rewrite rmatch_Seq, rmatch_Lits.
  destruct (strip_prefix (lit "QA_Log_") name) as [r|] eqn:P.
  - apply strip_prefix_Some in P. subst name.
    rewrite rmatch_Seq, rmatch_GreedyStar.
    match goal with
    | |- context [Re.greedy_loop ?p r ?g ?k] =>
        destruct (Re.greedy_loop p r g k) eqn:G
    end.
    + split; [intros _|reflexivity].
      apply greedy_any_Some in G as (a & b & -> & K).
      rewrite rmatch_Seq, rmatch_Lits in K.
      destruct (strip_prefix (lit ".md") b) as [t|] eqn:Q; [|discriminate].
      apply strip_prefix_Some in Q. subst b.
      destruct t; [|discriminate]. now exists a.
    + split; [discriminate|]. intros [mid E].
      apply app_inv_head in E. subst r.
      pose proof (proj1 (greedy_any_None _ _ _) G mid (lit ".md") eq_refl)
        as K.
      discriminate K.
  - split; [discriminate|]. intros [mid ->].
    now rewrite strip_prefix_app in P.
Qed.

Lemma log_name_not_hidden (name : str) :
  log_name name -> ishidden name = false.
Proof. intros [mid ->]. reflexivity. Qed.

Lemma glob_log_names (w : world) (name : str) :
  In name (glob w) <-> In name (listdir w) /\ log_name name.
Proof.
  unfold glob. rewrite !filter_In, fnmatch_log_name. split.
  - tauto.
  - intros [H L]. repeat split; auto.
    now rewrite (log_name_not_hidden L).
Qed.

(** The comparison of the code decides the lexicographic order. *)
Lemma str_compare_lex (a b : str) :
  str_compare a b <> Gt <-> lex_le a b.
Proof.
  revert b; induction a as [|c a IH]; intros [|d b]; simpl.
  - split; [constructor|discriminate].
  - split; [constructor|discriminate].
  - split; [congruence|inversion 1].
  - destruct (N.compare_spec c d) as [E|L|G].
    + subst d. rewrite IH. split; [now constructor|].
      inversion 1; subst; [lia|assumption].
    + split; [now constructor|discriminate].
    + split; [congruence|]. inversion 1; subst; lia.
Qed.

Lemma str_compare_opp (a b : str) :
  str_compare b a = CompOpp (str_compare a b).
Proof.
  revert b; induction a as [|c a IH]; intros [|d b]; simpl; auto.
  rewrite (N.compare_antisym c d).
  destruct (N.compare c d); simpl; auto.
Qed.

Lemma str_ltb_true (a b : str) : str_ltb a b = true -> lex_le a b.
Proof.
  unfold str_ltb. intros H. apply str_compare_lex.
  destruct (str_compare a b); discriminate.
Qed.

Lemma str_ltb_false (a b : str) : str_ltb a b = false -> lex_le b a.
Proof.
  unfold str_ltb. intros H. apply str_compare_lex.
  rewrite str_compare_opp.
  destruct (str_compare a b); simpl; discriminate.
Qed.

Lemma lex_le_refl (a : str) : lex_le a a.
Proof. induction a; now constructor. Qed.

Lemma lex_le_trans (a b c : str) : lex_le a b -> lex_le b c -> lex_le a c.
Proof.
  intros H; revert c; induction H; intros z Hz.
  - constructor.
  - inversion Hz; subst; constructor; lia.
  - inversion Hz; subst; [now constructor|].
    apply lex_eq; auto.
Qed.

Lemma lex_le_antisym (a b : str) : lex_le a b -> lex_le b a -> a = b.
Proof.
  induction 1; inversion 1; subst; try lia; auto.
  f_equal; auto.
Qed.

(** The head of the sorted list is a greatest element of the list. *)
Lemma sort_reverse_head (files : list str) :
  match hd_error (sort_reverse files) with
  | Some m => In m files /\ forall f, In f files -> lex_le f m
  | None => files = []
  end.
Proof.
  induction files as [|x files IH]; simpl; [reflexivity|].
  destruct (sort_reverse files) as [|h t] eqn:S; simpl in *.
  - subst files. split; [now left|].
    intros f [<-|[]]. apply lex_le_refl.
  - destruct IH as [Hin Hmax].
    destruct (str_ltb x h) eqn:L; simpl.
    + split; [now right|].
      intros f [<-|Hf]; [now apply str_ltb_true|auto].
    + split; [now left|].
      intros f [<-|Hf]; [apply lex_le_refl|].
      apply lex_le_trans with h; auto. now apply str_ltb_false.
Qed.

Lemma find_latest_log_cases (w : world) :
  match find_latest_log w with
  | None => forall name, In name (listdir w) -> ~ log_name name
  | Some m =>
      In m (listdir w) /\ log_name m /\
      forall name, In name (listdir w) -> log_name name -> lex_le name m
  end.
Proof.
  unfold find_latest_log.
  pose proof (sort_reverse_head (glob w)) as H.
  destruct (glob w) as [|f fs] eqn:G.
  - intros name Hin L.
    assert (I : In name (glob w)) by now apply glob_log_names.
    now rewrite G in I.
  - rewrite <- G in *.
    destruct (hd_error (sort_reverse (glob w))) as [m|].
    + destruct H as [Hin Hmax]. apply glob_log_names in Hin as [Hin L].
      repeat split; auto.
      intros name Hn Ln. apply Hmax. now apply glob_log_names.
    + rewrite H in G; discriminate.
Qed.

(** C2: the locator considers exactly the names [QA_Log_<anything>.md]
    of the directory; it returns [None] exactly when there is none, and
    otherwise the one that is greatest in the lexicographic order of
    the full names. *)
Theorem find_latest_log_greatest (w : world) :
  (find_latest_log w = None <->
   forall name, In name (listdir w) -> ~ log_name name) /\
  (forall m, find_latest_log w = Some m <->
     In m (listdir w) /\ log_name m /\
     forall name, In name (listdir w) -> log_name name -> lex_le name m).
Proof.
  pose proof (find_latest_log_cases w) as H.
  destruct (find_latest_log w) as [m|]; split.
  - split; [discriminate|]. intros N. destruct H as (Hin & L & _).
    now destruct (N m).
  - intros m'. split.
    + now intros [= <-].
    + intros (Hin' & L' & Hmax'). destruct H as (Hin & L & Hmax).
      f_equal. apply lex_le_antisym; auto.
  - split; auto.
  - intros m. split; [discriminate|].
    intros (Hin & L & _). now destruct (H m).
Qed.

(** Example 5 of the specification. *)
Example find_latest_log_example :
  find_latest_log
    {| listdir := [lit "QA_Log_2024-01-01.md"; lit "notes.txt";
                   lit "QA_Log_2024-02-15.md"];
       read_text := fun _ => Raise OSError;
       today := {| year := 2024; month := 3; day := 1 |} |}
  = Some (lit "QA_Log_2024-02-15.md").
Proof. reflexivity. Qed.

(** ** The parser: searching a heading and capturing its block *)

Lemma find_after_None (p s : str) :
  find_after p s = None <-> ~ occurs p s.
Proof.
  induction s as [|c s IH]; simpl.
  - destruct (strip_prefix p []) as [r|] eqn:P.
    + split; [discriminate|]. intros N. exfalso. apply N.
      exists [], r. now apply strip_prefix_Some in P.
    + split; [intros _|reflexivity].
      intros (a & b & E). destruct a; simpl in E.
      * rewrite E, strip_prefix_app in P; discriminate.
      * discriminate.
  - destruct (strip_prefix p (c :: s)) as [r|] eqn:P.
    + split; [discriminate|]. intros N. exfalso. apply N.
      exists [], r. now apply strip_prefix_Some in P.
    + rewrite IH. split.
      * intros N (a & b & E). destruct a as [|x a]; simpl in E.
        -- rewrite E, strip_prefix_app in P; discriminate.
        -- injection E as _ ->. apply N. now exists a, b.
      * intros N (a & b & ->). apply N. now exists (c :: a), b.
Qed.

Lemma find_after_first (p s a b : str) :
  first_occurrence p s a b -> find_after p s = Some b.
Proof.
  intros [E Hmin]. subst s. induction a as [|x a IH]; simpl.
  - destruct (p ++ b) eqn:Q; simpl; rewrite <- ?Q.
    + rewrite Q. destruct (strip_prefix p []) eqn:P; rewrite <- Q in P;
        rewrite strip_prefix_app in P; congruence.
    + destruct (strip_prefix p (p ++ b)) eqn:P;
        rewrite strip_prefix_app in P; congruence.
  - destruct (strip_prefix p (x :: a ++ p ++ b)) as [r|] eqn:P.
    + apply strip_prefix_Some in P.
      specialize (Hmin [] r P). simpl in Hmin; lia.
    + apply IH. intros a' b' E.
      specialize (Hmin (x :: a') b'). simpl in Hmin.
      rewrite E in Hmin. specialize (Hmin eq_refl). lia.
Qed.

Lemma find_after_Some (p s b : str) :
  find_after p s = Some b -> exists a, first_occurrence p s a b.
Proof.
  revert b; induction s as [|c s IH]; simpl; intros b.
  - destruct (strip_prefix p []) as [r|] eqn:P; [|discriminate].
    intros [= ->]. exists []. split.
    + now apply strip_prefix_Some in P.
    + intros; simpl; lia.
  - destruct (strip_prefix p (c :: s)) as [r|] eqn:P.
    + intros [= ->]. exists []. split.
      * now apply strip_prefix_Some in P.
      * intros; simpl; lia.
    + intros F. destruct (IH b F) as (a & E & Hmin).
      exists (c :: a). split; [now rewrite E|].
      intros a' b' E'. destruct a' as [|x a']; simpl in E'.
      * rewrite E', strip_prefix_app in P; discriminate.
      * injection E' as _ E'. specialize (Hmin a' b' E'). simpl; lia.
Qed.

(** The lookahead [(?=\n###|\Z)]. *)
Lemma lookahead_heading (s : str) (g : Re.groups) (k : Re.cont) :
  Re.rmatch
    (Re.Lookahead
       (Re.Alt (Re.Seq (Re.Chr NL) (Re.Lits (lit "###"))) Re.EndZ)) s g k =
  match s with
  | [] => k s g
  | _ :: _ => if starts_with (NL :: HASHES) s then k s g else None
  end.
Proof.
  rewrite rmatch_Lookahead, rmatch_Alt, rmatch_Seq, rmatch_Chr, rmatch_EndZ.
  destruct s as [|c s]; [reflexivity|].
  unfold starts_with, HASHES.
  change (NL :: lit "###") with ([NL] ++ lit "###").
  rewrite strip_prefix_cat.
  destruct (strip_prefix [NL] (c :: s)) as [r|]; [|reflexivity].
  rewrite rmatch_Lits.
  destruct (strip_prefix (lit "###") r); reflexivity.
Qed.

Lemma firstn_app_tail (A : Type) (a b : list A) :
  firstn (length (a ++ b) - length b) (a ++ b) = a.
Proof.
  rewrite length_app.
  replace (length a + length b - length b) with (length a + 0) by lia.
  rewrite firstn_app_2. simpl. apply app_nil_r.
Qed.

(** The lazy star stops at the first position where the lookahead
    holds: it captures [capture s]. *)
Lemma lazy_capture (s pre full : str) (g : Re.groups) :
  full = pre ++ s ->
  Re.lazy_loop (fun _ => true) s g
    (fun s' _ =>
       Re.rmatch
         (Re.Lookahead
            (Re.Alt (Re.Seq (Re.Chr NL) (Re.Lits (lit "###"))) Re.EndZ))
         s' (Some (firstn (length full - length s') full))
         (fun _ g' => Some g'))
  = Some (Some (pre ++ capture s)).
Proof.
  revert pre; induction s as [|c s IH]; intros pre E.
  - cbn [Re.lazy_loop]. rewrite lookahead_heading. subst full.
    rewrite firstn_app_tail. simpl capture. now rewrite app_nil_r.
  - cbn [Re.lazy_loop]. rewrite lookahead_heading.
    cbn [capture].
    destruct (starts_with (NL :: HASHES) (c :: s)).
    + subst full. now rewrite firstn_app_tail, app_nil_r.
    + rewrite (IH (pre ++ [c])).
      * now rewrite <- app_assoc.
      * now rewrite <- app_assoc.
Qed.

(** The pattern of a section at the head of a string. *)
Lemma re_match_section (section b : str) :
  Re.re_match (section_pattern section) b =
  match strip_prefix (heading section) b with
  | Some rest => Some (Some (capture rest))
  | None => None
  end.
Proof.
  unfold Re.re_match, section_pattern, heading.
  rewrite strip_prefix_cat, rmatch_Seq, rmatch_Lits.
  destruct (strip_prefix (lit "### ") b) as [r1|]; [|reflexivity].
  rewrite strip_prefix_cat, rmatch_Seq, rmatch_Lits.
  destruct (strip_prefix section r1) as [r2|]; [|reflexivity].
  rewrite rmatch_Seq, rmatch_Chr.
  destruct (strip_prefix [NL] r2) as [rest|]; [|reflexivity].
  rewrite rmatch_Seq, rmatch_Group, rmatch_LazyStar.
  apply (@lazy_capture rest [] rest None eq_refl).
Qed.

(** [re.search] for a section: the block behind the first occurrence of
    the heading. *)
Lemma search_section (section content : str) :
  Re.search (section_pattern section) content =
  match find_after (heading section) content with
  | Some rest => Some (Some (capture rest))
  | None => None
  end.
Proof.
  induction content as [|c s IH]; rewrite search_unfold, re_match_section.
  - cbn [find_after].
    destruct (strip_prefix (heading section) []); reflexivity.
  - cbn [find_after].
    destruct (strip_prefix (heading section) (c :: s)); [reflexivity|].
    exact IH.
Qed.

Lemma parse_section_items (content section : str) :
  parse_section content section = Ok (section_items content section).
Proof.
  unfold parse_section, section_items. rewrite search_section.
  destruct (find_after (heading section) content); [|reflexivity].
  simpl. now destruct (block_lines (capture s)).
Qed.

(** The parser never raises, and its result lists the five labels in
    their order, each with its items. *)
Lemma parse_content_items (content : str) :
  parse_content content =
  Ok (List.map (fun section => (section, section_items content section))
        SECTION_NAMES).
Proof.
  unfold parse_content. simpl keys.
  unfold parse_loop. rewrite !parse_section_items. reflexivity.
Qed.

(** ** Stripping, splitting and joining *)

Section Strip.

Variable p : char -> bool.

Lemma lstrip_by_In (c : char) (s : str) : In c (lstrip_by p s) -> In c s.
Proof.
  induction s as [|d s IH]; simpl; [auto|].
  destruct (p d); [right; auto|auto].
Qed.

Lemma rstrip_by_In (c : char) (s : str) : In c (rstrip_by p s) -> In c s.
Proof.
  unfold rstrip_by. intros H. apply in_rev in H.
  apply lstrip_by_In in H. now apply in_rev.
Qed.

Lemma strip_by_In (c : char) (s : str) : In c (strip_by p s) -> In c s.
Proof.
  unfold strip_by. intros H. now apply lstrip_by_In, rstrip_by_In.
Qed.

Lemma lstrip_by_keep (c : char) (s : str) :
  p c = false -> lstrip_by p (c :: s) = c :: s.
Proof. intros H; simpl; now rewrite H. Qed.

Lemma lstrip_by_all (a b : str) :
  Forall (fun c => p c = true) a -> lstrip_by p (a ++ b) = lstrip_by p b.
Proof.
  induction 1 as [|c a H _ IH]; simpl; [reflexivity|]. now rewrite H.
Qed.

Lemma rstrip_by_keep (z : char) (s : str) :
  p z = false -> rstrip_by p (s ++ [z]) = s ++ [z].
Proof.
  intros H. unfold rstrip_by. rewrite rev_app_distr.
  change (rev [z] ++ rev s) with (z :: rev s).
  rewrite lstrip_by_keep by assumption.
  change (z :: rev s) with (rev [z] ++ rev s).
  now rewrite <- rev_app_distr, rev_involutive.
Qed.

Lemma rstrip_by_all (a b : str) :
  Forall (fun c => p c = true) a -> rstrip_by p (b ++ a) = rstrip_by p b.
Proof.
  intros H. unfold rstrip_by. rewrite rev_app_distr.
  rewrite lstrip_by_all; [reflexivity|]. now apply Forall_rev.
Qed.

(** Stripping a string of stripped characters leaves nothing. *)
Lemma strip_by_all (a : str) :
  Forall (fun c => p c = true) a -> strip_by p a = [].
Proof.
  intros H. unfold strip_by.
  rewrite <- (app_nil_r a), lstrip_by_all by assumption. reflexivity.
Qed.

(** A string whose first and last characters stay is left as it is. *)
Lemma strip_by_fixed (c z : char) (s : str) :
  p c = false -> p z = false -> strip_by p (c :: s ++ [z]) = c :: s ++ [z].
Proof.
  intros Hc Hz. unfold strip_by. rewrite lstrip_by_keep by assumption.
  now apply (rstrip_by_keep (c :: s)).
Qed.

End Strip.

Lemma split_nl_nonempty (s : str) : split_nl s <> [].
Proof.
  induction s as [|c s IH]; simpl; [discriminate|].
  destruct (N.eqb c NL); [discriminate|].
  destruct (split_nl s); discriminate.
Qed.

Lemma split_nl_line (l s : str) :
  one_line l -> split_nl (l ++ NL :: s) = l :: split_nl s.
Proof.
  unfold one_line. induction l as [|c l IH]; intros H; simpl.
  - reflexivity.
  - destruct (N.eqb_spec c NL) as [E|E]; [destruct H; now left|].
    rewrite IH; [reflexivity|]. intros I; apply H; now right.
Qed.

Lemma split_nl_one (l : str) : one_line l -> split_nl l = [l].
Proof.
  unfold one_line. induction l as [|c l IH]; intros H; simpl.
  - reflexivity.
  - destruct (N.eqb_spec c NL) as [E|E]; [destruct H; now left|].
    rewrite IH; [reflexivity|]. intros I; apply H; now right.
Qed.

Lemma split_nl_one_line (s : str) : Forall one_line (split_nl s).
Proof.
  induction s as [|c s IH]; simpl.
  - constructor; [intros []|constructor].
  - destruct (N.eqb_spec c NL) as [E|E].
    + constructor; [intros []|assumption].
    + destruct (split_nl s) as [|l ls]; [constructor; [|constructor]|].
      * intros [H|[]]. now subst.
      * inversion IH; subst. constructor; [|assumption].
        intros [H|H]; [now subst|contradiction].
Qed.

Lemma split_join (lines : list str) :
  Forall one_line lines -> lines <> [] -> split_nl (join_nl lines) = lines.
Proof.
  induction 1 as [|l ls Hl Hls IH]; intros N; [contradiction|].
  destruct ls as [|l2 ls].
  - simpl. now apply split_nl_one.
  - change (join_nl (l :: l2 :: ls)) with (l ++ NL :: join_nl (l2 :: ls)).
    rewrite split_nl_line by assumption. f_equal. apply IH. discriminate.
Qed.

Lemma starts_with_cons (c : char) (q s : str) :
  starts_with (c :: q) s =
  match s with
  | [] => false
  | d :: s' => N.eqb c d && starts_with q s'
  end.
Proof.
  unfold starts_with. destruct s as [|d s]; simpl; [reflexivity|].
  destruct (N.eqb c d); reflexivity.
Qed.

(** A prefix without newline is looked for in the first line only. *)
Lemma starts_with_first_line (q s : str) :
  one_line q -> starts_with q s = starts_with q (hd [] (split_nl s)).
Proof.
  unfold one_line. revert s; induction q as [|c q IH]; intros s H.
  - reflexivity.
  - rewrite !starts_with_cons. destruct s as [|d s]; simpl; [reflexivity|].
    destruct (N.eqb_spec d NL) as [E|E].
    + subst d. simpl. destruct (N.eqb_spec c NL) as [E'|E']; [|reflexivity].
      destruct H; now left.
    + pose proof (split_nl_nonempty s) as Ns.
      rewrite (IH s) by (intros I; apply H; now right).
      destruct (split_nl s) as [|l ls]; [contradiction|reflexivity].
Qed.

(** ** The captured block, line by line *)

Lemma capture_newline (s : str) :
  capture (NL :: s) = if starts_with HASHES s then [] else NL :: capture s.
Proof.
  cbn [capture]. rewrite starts_with_cons, N.eqb_refl. reflexivity.
Qed.

Lemma capture_other (c : char) (s : str) :
  c <> NL -> capture (c :: s) = c :: capture s.
Proof.
  intros H. cbn [capture]. rewrite starts_with_cons.
  destruct (N.eqb_spec NL c) as [E|E]; [now destruct H|reflexivity].
Qed.

Lemma capture_line (l s : str) :
  one_line l -> capture (l ++ s) = l ++ capture s.
Proof.
  unfold one_line. induction l as [|c l IH]; intros H; [reflexivity|].
  simpl app. rewrite capture_other by (intros E; apply H; now left).
  f_equal. apply IH. intros I; apply H; now right.
Qed.

(** The block is the first line behind the heading, followed by the
    lines up to the next line that begins with [###]. *)
Lemma capture_lines (s : str) :
  capture s =
  match split_nl s with
  | [] => []
  | l :: ls => join_nl (l :: before_heading ls)
  end.
Proof.
  induction s as [|c s IH].
  - reflexivity.
  - pose proof (split_nl_nonempty s) as Ns.
    destruct (N.eqb_spec c NL) as [E|E].
    + subst c. rewrite capture_newline.
      change (split_nl (NL :: s)) with ([] :: split_nl s).
      rewrite (@starts_with_first_line HASHES s)
        by (unfold one_line; simpl; intros [H|[H|[H|[]]]]; discriminate).
      destruct (split_nl s) as [|l ls]; [contradiction|].
      simpl hd. cbn [before_heading].
      destruct (starts_with HASHES l); [reflexivity|].
      rewrite IH. reflexivity.
    + rewrite capture_other by assumption. rewrite IH.
      cbn [split_nl]. destruct (N.eqb_spec c NL); [contradiction|].
      destruct (split_nl s) as [|l ls]; [contradiction|].
      destruct (before_heading ls); reflexivity.
Qed.

(** ** The parser: what it returns *)

Lemma section_items_nonempty (content section : str) :
  section_items content section <> [].
Proof.
  unfold section_items.
  destruct (find_after (heading section) content); [|discriminate].
  destruct (block_lines (capture s)); discriminate.
Qed.

(** A label whose heading does not occur gets the placeholder. *)
Lemma section_items_absent (content section : str) :
  ~ occurs (heading section) content ->
  section_items content section = [placeholder section].
Proof.
  intros H. apply find_after_None in H. unfold section_items.
  now rewrite H.
Qed.

Lemma filter_all (A : Type) (f : A -> bool) (l : list A) :
  Forall (fun x => f x = true) l -> filter f l = l.
Proof.
  induction 1 as [|x l H _ IH]; simpl; [reflexivity|].
  now rewrite H, IH.
Qed.

Lemma filter_none (A : Type) (f : A -> bool) (l : list A) :
  Forall (fun x => f x = false) l -> filter f l = [].
Proof.
  induction 1 as [|x l H _ IH]; simpl; [reflexivity|].
  now rewrite H.
Qed.

(** A heading whose block has blank lines only gets the placeholder. *)
Lemma section_items_blank (content section pre rest : str) :
  first_occurrence (heading section) content pre rest ->
  Forall (fun line => strip line = []) (split_nl (strip (capture rest))) ->
  section_items content section = [placeholder section].
Proof.
  intros F B. unfold section_items. rewrite (find_after_first F).
  unfold block_lines. rewrite filter_none; [reflexivity|].
  eapply Forall_impl; [|exact B]. intros l E; simpl in E. now rewrite E.
Qed.

Lemma getitem_parsed (content section : str) :
  In section SECTION_NAMES ->
  getitem
    (List.map (fun name => (name, section_items content name)) SECTION_NAMES)
    section
  = Ok (section_items content section).
Proof.
  intros [<-|[<-|[<-|[<-|[<-|[]]]]]]; reflexivity.
Qed.

Lemma strip_bullet_one_line (line : str) :
  one_line line -> one_line (strip_bullet line).
Proof.
  unfold one_line, strip_bullet, strip, strip_chars. intros H I.
  apply H. now apply strip_by_In in I; apply strip_by_In in I.
Qed.

Lemma block_lines_one_line (block : str) :
  Forall one_line (block_lines block).
Proof.
  unfold block_lines. apply Forall_map.
  pose proof (split_nl_one_line (strip block)) as H.
  rewrite Forall_forall in *. intros l Hl. apply filter_In in Hl as [Hl _].
  apply strip_bullet_one_line; auto.
Qed.

Lemma section_items_one_line (content section : str) :
  one_line section -> Forall one_line (section_items content section).
Proof.
  intros Hs.
  assert (P : Forall one_line [placeholder section]).
  { constructor; [|constructor]. unfold one_line, placeholder.
    rewrite in_app_iff. intros [H|H]; [|contradiction].
    simpl in H. repeat destruct H as [H|H]; try discriminate H; contradiction. }
  unfold section_items.
  destruct (find_after (heading section) content) as [rest|]; [|exact P].
  pose proof (block_lines_one_line (capture rest)) as B.
  destruct (block_lines (capture rest)); [exact P|exact B].
Qed.

Lemma section_names_one_line (section : str) :
  In section SECTION_NAMES -> one_line section.
Proof.
  intros [<-|[<-|[<-|[<-|[<-|[]]]]]] H; simpl in H;
    repeat destruct H as [H|H]; try discriminate H; contradiction.
Qed.

(** For every text, the parser returns the five labels in their order,
    each with at least one item, each item a single line. *)
Lemma parse_content_parsed_log (content : str) :
  exists d, parse_content content = Ok d /\ parsed_log d.
Proof.
  eexists; split; [apply parse_content_items|].
  split; [reflexivity|].
  apply Forall_map. rewrite Forall_forall. intros section Hs. simpl. split.
  - apply section_items_nonempty.
  - apply section_items_one_line. now apply section_names_one_line.
Qed.

(** *** Capturing a run of bullet lines *)

Lemma bullet_line_one_line (l : str) : bullet_line l -> one_line l.
Proof. now intros [_ H]. Qed.

Lemma join_bullets_head (lines : list str) :
  lines <> [] -> Forall bullet_line lines ->
  exists t, join_nl lines = DASH :: t.
Proof.
  intros N H. destruct H as [|l ls [[t ->] _] _]; [contradiction|].
  destruct ls; simpl; now eexists.
Qed.

Lemma join_nl_last (items : list str) :
  items <> [] -> exists front, join_nl items = front ++ last items [].
Proof.
  induction items as [|x items IH]; intros N; [contradiction|].
  destruct items as [|y items].
  - now exists [].
  - destruct IH as [front E]; [discriminate|].
    exists (x ++ NL :: front).
    change (join_nl (x :: y :: items)) with (x ++ NL :: join_nl (y :: items)).
    rewrite E. change (last (x :: y :: items) []) with (last (y :: items) []).
    now rewrite <- app_assoc.
Qed.

Lemma join_bullets_last (lines : list str) :
  lines <> [] -> ends_black (last lines []) -> ends_black (join_nl lines).
Proof.
  intros N (u & z & E & Hz). destruct (join_nl_last N) as [front J].
  exists (front ++ u), z. split; [|assumption].
  now rewrite J, E, app_assoc.
Qed.

Lemma capture_bullets (lines : list str) (s : str) :
  lines <> [] -> Forall bullet_line lines ->
  capture (join_nl lines ++ s) = join_nl lines ++ capture s.
Proof.
  intros N H. induction H as [|l ls Hl Hls IH]; [contradiction|].
  destruct ls as [|l2 ls].
  - simpl join_nl. apply capture_line. now apply bullet_line_one_line.
  - change (join_nl (l :: l2 :: ls)) with (l ++ NL :: join_nl (l2 :: ls)).
    rewrite <- app_assoc. rewrite capture_line
      by now apply bullet_line_one_line.
    rewrite <- app_assoc. f_equal.
    rewrite <- app_comm_cons, capture_newline.
    destruct (@join_bullets_head (l2 :: ls)) as [t E];
      [discriminate|assumption|].
    rewrite E at 1. rewrite <- app_comm_cons.
    replace (starts_with HASHES (DASH :: t ++ s)) with false by reflexivity.
    rewrite IH by discriminate. reflexivity.
Qed.

Lemma capture_gap (gap tail : str) :
  Forall (fun c => isspace c = true) gap ->
  (tail = [] \/
   (exists g, gap = g ++ [NL]) /\ starts_with HASHES tail = true) ->
  Forall (fun c => isspace c = true) (capture (gap ++ tail)).
Proof.
  induction 1 as [|c gap Hc Hgap IH]; intros T.
  - destruct T as [->|[[g E] _]]; [constructor|].
    now destruct g.
  - simpl app. cbn [capture].
    destruct (starts_with (NL :: HASHES) (c :: gap ++ tail)) eqn:S;
      [constructor|].
    constructor; [assumption|]. apply IH.
    destruct T as [->|[[g E] Ht]]; [now left|]. right.
    split; [|assumption].
    destruct g as [|x g]; simpl in E.
    + injection E as -> ->. simpl app in S.
      rewrite starts_with_cons, N.eqb_refl in S. simpl in S. congruence.
    + injection E as _ ->. now exists g.
Qed.

Lemma strip_bullets_gap (lines : list str) (g : str) :
  lines <> [] -> Forall bullet_line lines -> ends_black (last lines []) ->
  Forall (fun c => isspace c = true) g ->
  strip (join_nl lines ++ g) = join_nl lines.
Proof.
  intros N H B G. unfold strip, strip_by.
  destruct (join_bullets_head N H) as [t E].
  destruct (join_bullets_last N B) as (u & z & E' & Hz).
  rewrite E at 1. rewrite <- app_comm_cons, lstrip_by_keep by reflexivity.
  rewrite app_comm_cons, <- E. rewrite rstrip_by_all by assumption.
  rewrite E'. now apply rstrip_by_keep.
Qed.

Lemma lstrip_by_snoc (p : char -> bool) (c : char) (t : str) :
  p c = false -> lstrip_by p (t ++ [c]) <> [].
Proof.
  intros H. induction t as [|x t IH]; simpl.
  - rewrite H. discriminate.
  - destruct (p x); [assumption|discriminate].
Qed.

(** A line that begins with a dash is not blank. *)
Lemma bullet_line_kept (l : str) :
  bullet_line l -> truthy (strip l) = true.
Proof.
  intros [[x ->] _]. unfold strip, strip_by.
  rewrite lstrip_by_keep by reflexivity. unfold rstrip_by.
  destruct (rev (lstrip_by isspace (rev (DASH :: x)))) eqn:E; [|reflexivity].
  apply (f_equal (@rev char)) in E. rewrite rev_involutive in E.
  simpl rev in E. now apply lstrip_by_snoc in E.
Qed.

(** The items of a section made of bullet lines are these lines, each
    stripped, in their order. *)
Lemma section_items_bullets (content section : str) (lines : list str) :
  section_with content section lines ->
  section_items content section = List.map strip_bullet lines.
Proof.
  intros (pre & gap & tail & F & N & B & L & G & T).
  unfold section_items. rewrite (find_after_first F).
  rewrite capture_bullets by assumption.
  unfold block_lines.
  rewrite strip_bullets_gap; auto using capture_gap.
  rewrite split_join; auto.
  - rewrite filter_all.
    + destruct lines; [contradiction|reflexivity].
    + eapply Forall_impl; [|exact B]. apply bullet_line_kept.
  - eapply Forall_impl; [|exact B]. apply bullet_line_one_line.
Qed.

(** *** What the specification says of the parser *)

(** C1: the five keys and their non-empty values are as the
    specification says, but a heading with no line under it does not
    get the placeholder when the next heading follows it directly: the
    newline that ends the heading is the one the lookahead needs, so the
    block takes the line of the next heading.  In a log with the five
    headings and nothing else, only the last label gets its
    placeholder. *)
Theorem parse_empty_sections :
  parse_content EMPTY_SECTIONS =
  Ok [ (TASKS_DONE, [lit "### " ++ BUGS_FOUND]);
       (BUGS_FOUND, [lit "### " ++ FIXES_VERIFIED]);
       (FIXES_VERIFIED, [lit "### " ++ OBSERVATIONS]);
       (OBSERVATIONS, [lit "### " ++ NEXT_STEPS]);
       (NEXT_STEPS, [placeholder NEXT_STEPS]) ].
Proof. vm_compute. reflexivity. Qed.

(** Example 3 of the specification. *)
Example parse_example_log :
  parse_content EXAMPLE_LOG =
  Ok [ (TASKS_DONE, [placeholder TASKS_DONE]);
       (BUGS_FOUND, [lit "Crash on save"; lit "Typo in UI"]);
       (FIXES_VERIFIED, [placeholder FIXES_VERIFIED]);
       (OBSERVATIONS, [placeholder OBSERVATIONS]);
       (NEXT_STEPS, [lit "Fix crash"]) ].
Proof. vm_compute. reflexivity. Qed.

(** Example 4 of the specification: the empty text. *)
Example parse_empty_text :
  parse_content [] =
  Ok (List.map (fun section => (section, [placeholder section]))
        SECTION_NAMES).
Proof. vm_compute. reflexivity. Qed.

(** C3, as the specification states it, fails: a section is captured
    from a text none of whose lines is the heading [### <label>]. *)
Lemma heading_inside_line :
  ~ In (lit "### " ++ TASKS_DONE) (split_nl DEEPER_HEADING_LOG) /\
  Re.search (section_pattern TASKS_DONE) DEEPER_HEADING_LOG
  = Some (Some (lit "- a" ++ [NL])) /\
  parse_section DEEPER_HEADING_LOG TASKS_DONE = Ok [lit "a"].
Proof.
  split; [|split; vm_compute; reflexivity].
  vm_compute. intros [H|[H|[H|[]]]]; discriminate H.
Qed.

(** C3 (amended): the heading is looked for as a string, wherever it
    stands.  Without an occurrence of [### <label>] and a newline there
    is no match.  With one, the first occurrence is used, and when the
    text behind it does not itself begin with [###], the block is made
    of the lines behind the heading up to, and without, the first line
    that begins with [###], or up to the end of the text. *)
Theorem search_section_block (content section : str) :
  (~ occurs (heading section) content ->
   Re.search (section_pattern section) content = None) /\
  (forall pre rest,
     first_occurrence (heading section) content pre rest ->
     starts_with HASHES rest = false ->
     Re.search (section_pattern section) content
     = Some (Some (join_nl (before_heading (split_nl rest))))).
Proof.
  rewrite search_section. split.
  - intros H. apply find_after_None in H. now rewrite H.
  - intros pre rest F S. rewrite (find_after_first F).
    rewrite capture_lines.
    rewrite (@starts_with_first_line HASHES rest) in S
      by (unfold one_line; simpl; intros [H|[H|[H|[]]]]; discriminate).
    pose proof (split_nl_nonempty rest) as N.
    destruct (split_nl rest) as [|l ls]; [contradiction|].
    simpl hd in S. cbn [before_heading]. now rewrite S.
Qed.

Lemma search_section_block_witness :
  Re.search (section_pattern BUGS_FOUND) EXAMPLE_LOG
  = Some (Some (lit "- Crash on save" ++ [NL] ++ lit "- Typo in UI")).
Proof.
  destruct (@find_after_Some (heading BUGS_FOUND) EXAMPLE_LOG
              (lit "- Crash on save" ++ [NL] ++ lit "- Typo in UI" ++ [NL]
               ++ heading NEXT_STEPS ++ lit "- Fix crash") eq_refl)
    as [pre F].
  exact (proj2 (search_section_block EXAMPLE_LOG BUGS_FOUND) pre _ F
           eq_refl).
Defined.

(** The two examples of the specification for the stripping of a line. *)
Example strip_bullet_double_dash :
  strip_bullet (lit "-- note") = lit "note".
Proof. reflexivity. Qed.

Example strip_bullet_trailing_dash :
  strip_bullet (lit "- note - ") = lit "note".
Proof. reflexivity. Qed.

(** Blank lines are dropped from a block. *)
Example block_lines_blank :
  block_lines (lit "- a" ++ [NL] ++ lit "  " ++ [NL] ++ [NL] ++ lit "- b")
  = [lit "a"; lit "b"].
Proof. reflexivity. Qed.

(** C4: the block is split on newlines and each line is stripped of
    dashes and spaces at both ends; but the test that drops a line looks
    at the line stripped of white space only, so a line of dashes is
    kept, as an empty item. *)
Theorem parse_dash_line :
  parse_section DASH_LINE_LOG TASKS_DONE = Ok [lit "a"; []].
Proof. vm_compute. reflexivity. Qed.

(** Stripping a bullet line with a clean item gives back the item. *)
Lemma strip_bullet_clean (x : str) :
  clean_item x -> strip_bullet (bullet x) = x.
Proof.
  intros (c & t & u & z & Ec & Ez & [Wc Dc] & [Wz Dz]).
  unfold strip_bullet, bullet, strip_chars, strip.
  assert (E1 : strip_by (in_chars (lit "- ")) (lit "- " ++ x) = x).
  { unfold strip_by. rewrite lstrip_by_all
      by (repeat constructor).
    rewrite Ec at 1. rewrite lstrip_by_keep by assumption. rewrite <- Ec.
    rewrite Ez. now apply rstrip_by_keep. }
  rewrite E1. unfold strip_by.
  rewrite Ec at 1. rewrite lstrip_by_keep by assumption. rewrite <- Ec.
  rewrite Ez. now apply rstrip_by_keep.
Qed.

Lemma no_newline_one_line (s : str) :
  forallb (fun c => negb (N.eqb c NL)) s = true -> one_line s.
Proof.
  intros H I. rewrite forallb_forall in H. specialize (H NL I).
  discriminate H.
Qed.

(** A section of one bullet line in a text that can be computed with:
    [rest] is the text behind the heading, [gap] and [tail] its parts
    behind the line, [u] and [z] the line without and its last
    character. *)
Ltac one_bullet_section rest gap tail u z :=
  match goal with
  | |- section_with ?content ?section _ =>
      let pre := fresh "pre" in
      let F := fresh "F" in
      destruct (@find_after_Some (heading section) content rest eq_refl)
        as [pre F];
      exists pre, gap, tail;
      split; [exact F|];
      split; [discriminate|];
      split; [constructor; [|constructor];
              split; [eexists; reflexivity
                     |apply no_newline_one_line; reflexivity]|];
      split; [exists u, z; split; reflexivity|];
      split; [repeat constructor|]
  end.

(** ** The renderer *)

Lemma unlines_app (a b : list str) :
  unlines (a ++ b) = unlines a ++ unlines b.
Proof. unfold unlines. now rewrite map_app, concat_app. Qed.

Lemma unlines_cons (l : str) (ls : list str) :
  unlines (l :: ls) = l ++ NL :: unlines ls.
Proof. unfold unlines. simpl. now rewrite <- app_assoc. Qed.

(** Joining with newlines and closing the last line. *)
Lemma join_unlines (items : list str) (rest : str) :
  items <> [] -> join_nl items ++ NL :: rest = unlines items ++ rest.
Proof.
  intros N. induction items as [|x items IH]; [contradiction|].
  rewrite unlines_cons. destruct items as [|y items].
  - simpl. now rewrite <- app_assoc.
  - change (join_nl (x :: y :: items)) with (x ++ NL :: join_nl (y :: items)).
    rewrite <- !app_assoc. f_equal. simpl. f_equal. apply IH. discriminate.
Qed.

Lemma list_block_bullets (items : list str) :
  list_block items = join_nl (List.map bullet items).
Proof. reflexivity. Qed.

Lemma map_nonempty (A B : Type) (f : A -> B) (l : list A) :
  l <> [] -> List.map f l <> [].
Proof. destruct l; [contradiction|discriminate]. Qed.

Lemma app_nonempty_r (A : Type) (a b : list A) : b <> [] -> a ++ b <> [].
Proof. destruct a; [auto|discriminate]. Qed.

(** The report, when every key is present, before any rewriting. *)
Lemma generate_report_blocks (sections : dict) (date : str)
      (tasks bugs fixes obs next : list str) :
  has_sections sections tasks bugs fixes obs next ->
  generate_report sections date =
  Ok (REPORT_TITLE date ++ NL :: NL ::
      KEY_TAKEAWAYS_HEADING ++ NL ::
      list_block (tasks ++ fixes ++ obs) ++ NL :: NL ::
      BUGS_FOUND_HEADING ++ NL ::
      list_block bugs ++ NL :: NL ::
      PROGRESS_SUMMARY_HEADING ++ NL ::
      list_block (fixes ++ obs) ++ NL :: NL ::
      NEXT_STEPS_HEADING ++ NL ::
      list_block next ++ [NL]).
Proof.
  intros (Ht & Hb & Hf & Ho & Hn). unfold generate_report.
  rewrite Ht, Hf, Ho, Hn, Hb. reflexivity.
Qed.

(** C6: the report of a parsed log is the template line by line: the
    title, and under each of the four headings one line [- <item>] per
    item; the key takeaways are the tasks, the fixes and the
    observations in this order, the progress summary the fixes and the
    observations, the bugs and the next steps as they are.  A blank line
    stands before each heading and nowhere else. *)
Theorem generate_report_template (sections : dict) (date : str)
        (tasks bugs fixes obs next : list str) :
  has_sections sections tasks bugs fixes obs next ->
  tasks <> [] -> bugs <> [] -> fixes <> [] -> obs <> [] -> next <> [] ->
  generate_report sections date =
  Ok (unlines (report_lines date tasks bugs fixes obs next)).
Proof.
  intros H Nt Nb Nf No Nn. rewrite (generate_report_blocks date H).
  f_equal. unfold report_lines.
  rewrite !unlines_app, !list_block_bullets.
  rewrite !unlines_cons. change (unlines []) with (@nil char).
  assert (Nk : tasks ++ fixes ++ obs <> [])
    by now apply app_nonempty_r, app_nonempty_r.
  assert (Np : fixes ++ obs <> []) by now apply app_nonempty_r.
  rewrite (join_unlines _ (map_nonempty bullet Nk)).
  rewrite (join_unlines _ (map_nonempty bullet Nb)).
  rewrite (join_unlines _ (map_nonempty bullet Np)).
  rewrite (join_unlines _ (map_nonempty bullet Nn)).
  rewrite <- !app_assoc. cbn [app]. rewrite app_nil_r. reflexivity.
Qed.

Lemma generate_report_template_witness :
  generate_report FULL_PARSED (lit "2024-03-01") =
  Ok (unlines
        [REPORT_TITLE (lit "2024-03-01"); [];
         KEY_TAKEAWAYS_HEADING;
         lit "- wrote tests"; lit "- login fix"; lit "- slow start"; [];
         BUGS_FOUND_HEADING;
         lit "- crash on save"; [];
         PROGRESS_SUMMARY_HEADING;
         lit "- login fix"; lit "- slow start"; [];
         NEXT_STEPS_HEADING;
         lit "- fix crash"]).
Proof.
  apply (@generate_report_template FULL_PARSED (lit "2024-03-01")
           [lit "wrote tests"] [lit "crash on save"] [lit "login fix"]
           [lit "slow start"] [lit "fix crash"]).
  - repeat split; reflexivity.
  - discriminate.
  - discriminate.
  - discriminate.
  - discriminate.
  - discriminate.
Defined.

Lemma last_bullet (items : list str) :
  items <> [] ->
  last (List.map bullet items) [] = bullet (last items []).
Proof.
  induction items as [|x items IH]; intros N; [contradiction|].
  destruct items as [|y items]; [reflexivity|].
  change (last (List.map bullet (x :: y :: items)) [])
    with (last (List.map bullet (y :: items)) []).
  rewrite IH by discriminate. reflexivity.
Qed.

Lemma last_In (A : Type) (l : list A) (d : A) : l <> [] -> In (last l d) l.
Proof.
  induction l as [|x l IH]; intros N; [contradiction|].
  destruct l as [|y l]; [now left|]. right. apply IH. discriminate.
Qed.

Lemma bullet_one_line (x : str) : one_line x -> one_line (bullet x).
Proof.
  unfold one_line, bullet. intros H I. apply in_app_or in I as [I|I]; auto.
  simpl in I. destruct I as [I|[I|[]]]; discriminate I.
Qed.

(** C10: the report of a parsed log ends with the last bullet line of
    the next steps and one newline; the line holds no newline, so the
    report does not end with two. *)
Theorem generate_report_final_newline (sections : dict) (date : str)
        (tasks bugs fixes obs next : list str) :
  has_sections sections tasks bugs fixes obs next ->
  next <> [] -> Forall one_line next ->
  (exists body,
     generate_report sections date =
     Ok (body ++ bullet (last next []) ++ [NL])) /\
  one_line (bullet (last next [])) /\
  forall u, generate_report sections date <> Ok (u ++ [NL; NL]).
Proof.
  intros H Nn Ln.
  assert (L : one_line (bullet (last next []))).
  { apply bullet_one_line. rewrite Forall_forall in Ln. apply Ln.
    now apply last_In. }
  destruct (join_nl_last (map_nonempty bullet Nn)) as [front E].
  rewrite (last_bullet Nn) in E.
  assert (R : exists body,
             generate_report sections date =
             Ok (body ++ bullet (last next []) ++ [NL])).
  { rewrite (generate_report_blocks date H), !list_block_bullets, E.
    eexists. f_equal.
    repeat (rewrite ?app_comm_cons, ?app_assoc).
    reflexivity. }
  split; [exact R|]. split; [exact L|].
  intros u Hu. destruct R as [body R]. rewrite R in Hu.
  apply (f_equal (fun r => match r with Ok x => x | Raise _ => [] end))
    in Hu.
  cbv beta iota in Hu.
  change (u ++ [NL; NL]) with (u ++ [NL] ++ [NL]) in Hu.
  rewrite !app_assoc in Hu. apply app_inj_tail in Hu as [Hu _].
  assert (Nb : bullet (last next []) <> []) by discriminate.
  rewrite (app_removelast_last NL Nb) in Hu.
  rewrite app_assoc in Hu. apply app_inj_tail in Hu as [_ Hu].
  apply L. rewrite <- Hu. now apply last_In.
Qed.

Lemma generate_report_final_newline_witness :
  (exists body,
     generate_report FULL_PARSED (lit "2024-03-01") =
     Ok (body ++ lit "- fix crash" ++ [NL])) /\
  one_line (lit "- fix crash") /\
  forall u,
    generate_report FULL_PARSED (lit "2024-03-01") <> Ok (u ++ [NL; NL]).
Proof.
  apply (@generate_report_final_newline FULL_PARSED (lit "2024-03-01")
           [lit "wrote tests"] [lit "crash on save"] [lit "login fix"]
           [lit "slow start"] [lit "fix crash"]).
  - repeat split; reflexivity.
  - discriminate.
  - constructor; [|constructor]. unfold one_line. simpl.
    intros H. repeat destruct H as [H|H]; try discriminate H; contradiction.
Defined.

(** *** Capturing a section of bullet lines and blank lines *)


Lemma ends_with_item_tail (e e2 : entry) (es : list entry) :
  ends_with_item (e :: e2 :: es) -> ends_with_item (e2 :: es).
Proof. exact (fun H => H). Qed.


















(** ** The date extractor *)

Lemma take_class_app (p : char -> bool) (n : nat) (a r : str) :
  length a = n -> Forall (fun c => p c = true) a ->
  take_class p n (a ++ r) = Some r.
Proof.
  intros L H; revert n L. induction H as [|c a Hc _ IH]; intros n L.
  - now subst n.
  - subst n. simpl. rewrite Hc. now apply IH.
Qed.

Lemma take_class_Some (p : char -> bool) (n : nat) (s r : str) :
  take_class p n s = Some r ->
  exists a, s = a ++ r /\ length a = n /\ Forall (fun c => p c = true) a.
Proof.
  revert s; induction n as [|n IH]; intros s; simpl.
  - intros [= ->]. now exists [].
  - destruct s as [|c s]; [discriminate|].
    destruct (p c) eqn:Hc; [|discriminate].
    intros H. destruct (IH s H) as (a & -> & L & F).
    exists (c :: a). repeat split; simpl; auto.
Qed.

Section Dates.

Variable unicode_decimal : char -> bool.

(** The ASCII digits are decimal digits of the database. *)
Hypothesis ascii_decimal :
  forall c, ascii_digit c = true -> unicode_decimal c = true.

Local Abbreviation ud := unicode_decimal.

(** The date pattern at the head of a string, step by step. *)
Lemma re_match_date_steps (b : str) :
  Re.re_match (date_pattern ud) b =
  match strip_prefix (lit "QA_Log_") b with
  | None => None
  | Some r =>
  match take_class ud 4 r with
  | None => None
  | Some r1 =>
  match strip_prefix [DASH] r1 with
  | None => None
  | Some r2 =>
  match take_class ud 2 r2 with
  | None => None
  | Some r3 =>
  match strip_prefix [DASH] r3 with
  | None => None
  | Some r4 =>
  match take_class ud 2 r4 with
  | None => None
  | Some r5 =>
  match strip_prefix [DOT] r5 with
  | None => None
  | Some r6 =>
  match strip_prefix (lit "md") r6 with
  | None => None
  | Some _ => Some (Some (firstn (length r - length r5) r))
  end end end end end end end end.
Proof.
  unfold Re.re_match, date_pattern.
  rewrite rmatch_Seq, rmatch_Lits.
  destruct (strip_prefix (lit "QA_Log_") b) as [r|]; [|reflexivity].
  rewrite rmatch_Seq, rmatch_Group, rmatch_Seq, rmatch_Repeat_Class.
  destruct (take_class ud 4 r) as [r1|]; [|reflexivity].
  rewrite rmatch_Seq, rmatch_Chr.
  destruct (strip_prefix [DASH] r1) as [r2|]; [|reflexivity].
  rewrite rmatch_Seq, rmatch_Repeat_Class.
  destruct (take_class ud 2 r2) as [r3|]; [|reflexivity].
  rewrite rmatch_Seq, rmatch_Chr.
  destruct (strip_prefix [DASH] r3) as [r4|]; [|reflexivity].
  rewrite rmatch_Repeat_Class.
  destruct (take_class ud 2 r4) as [r5|]; [|reflexivity].
  cbv beta. rewrite rmatch_Seq, rmatch_Chr.
  destruct (strip_prefix [DOT] r5) as [r6|]; [|reflexivity].
  rewrite rmatch_Lits.
  destruct (strip_prefix (lit "md") r6); reflexivity.
Qed.

(** The date pattern matches at the head of [b] exactly when [b] begins
    with [QA_Log_], a date text and [.md]; group 1 is the date text. *)
Lemma re_match_date (b : str) (m : Re.groups) :
  Re.re_match (date_pattern ud) b = Some m <->
  exists d post,
    b = lit "QA_Log_" ++ d ++ lit ".md" ++ post /\ date_text ud d /\
    m = Some d.
Proof.
  rewrite re_match_date_steps. split.
  - destruct (strip_prefix (lit "QA_Log_") b) as [r|] eqn:E0; [|discriminate].
    destruct (take_class ud 4 r) as [r1|] eqn:E1; [|discriminate].
    destruct (strip_prefix [DASH] r1) as [r2|] eqn:E2; [|discriminate].
    destruct (take_class ud 2 r2) as [r3|] eqn:E3; [|discriminate].
    destruct (strip_prefix [DASH] r3) as [r4|] eqn:E4; [|discriminate].
    destruct (take_class ud 2 r4) as [r5|] eqn:E5; [|discriminate].
    destruct (strip_prefix [DOT] r5) as [r6|] eqn:E6; [|discriminate].
    destruct (strip_prefix (lit "md") r6) as [post|] eqn:E7; [|discriminate].
    intros [= <-].
    apply strip_prefix_Some in E0, E2, E4, E6, E7.
    apply take_class_Some in E1 as (y & E1 & Ly & Hy).
    apply take_class_Some in E3 as (mo & E3 & Lm & Hm).
    apply take_class_Some in E5 as (dd & E5 & Ld & Hd).
    subst r6 r5 r4 r3 r2 r1.
    assert (Er : r = (y ++ [DASH] ++ mo ++ [DASH] ++ dd)
                       ++ ([DOT] ++ lit "md" ++ post)).
    { rewrite E1. now rewrite <- !app_assoc. }
    exists (y ++ [DASH] ++ mo ++ [DASH] ++ dd), post.
    split; [|split].
    + rewrite E0, Er. reflexivity.
    + now exists y, mo, dd.
    + f_equal. rewrite Er. apply firstn_app_tail.
  - intros (d & post & -> & (y & mo & dd & -> & Ly & Lm & Ld & Hy & Hm & Hd)
            & ->).
    rewrite strip_prefix_app.
    rewrite <- !app_assoc. rewrite (@take_class_app ud 4 y _ Ly Hy).
    rewrite strip_prefix_app, (@take_class_app ud 2 mo _ Lm Hm).
    rewrite strip_prefix_app, (@take_class_app ud 2 dd _ Ld Hd).
    change (lit ".md" ++ post) with ([DOT] ++ lit "md" ++ post).
    rewrite !strip_prefix_app. do 2 f_equal.
    rewrite !app_assoc. rewrite <- (app_assoc _ (lit "md") post).
    rewrite <- (app_assoc _ [DOT] (lit "md" ++ post)).
    apply firstn_app_tail.
Qed.

Lemma digit_ascii (n : N) : ascii_digit (digit n) = true.
Proof.
  unfold ascii_digit, digit.
  pose proof (N.mod_lt n 10 ltac:(discriminate)) as H.
  revert H. generalize (n mod 10)%N. intros m H.
  apply andb_true_intro. split; apply N.leb_le; lia.
Qed.

(** The fallback date has the form of a date text. *)
Lemma strftime_date_text (d : date) : date_text ascii_digit (strftime_Ymd d).
Proof.
  unfold strftime_Ymd.
  exists [digit (year d / 1000); digit (year d / 100); digit (year d / 10);
          digit (year d)],
         [digit (month d / 10); digit (month d)],
         [digit (day d / 10); digit (day d)].
  repeat split; auto; repeat constructor; apply digit_ascii.
Qed.

(** The digits that [strftime] writes are those of the number. *)
Lemma digit_value_digit (n : N) : digit_value (digit n) = (n mod 10)%N.
Proof. unfold digit_value, digit. now rewrite N.add_comm, N.add_sub. Qed.

Lemma number_digits2 (n : N) :
  (n < 100)%N -> number [digit (n / 10); digit n] = n.
Proof.
  intros H. unfold number. cbn [fold_left]. rewrite !digit_value_digit.
  assert (Q : (n / 10 < 10)%N)
    by (apply N.Div0.div_lt_upper_bound; exact H).
  rewrite (N.mod_small _ _ Q).
  pose proof (N.div_mod' n 10) as E. revert E Q.
  generalize (n mod 10)%N (n / 10)%N. intros r q E Q. lia.
Qed.

Lemma number_digits4 (n : N) :
  (n < 10000)%N ->
  number [digit (n / 1000); digit (n / 100); digit (n / 10); digit n] = n.
Proof.
  intros H. unfold number. cbn [fold_left]. rewrite !digit_value_digit.
  replace (n / 100)%N with (n / 10 / 10)%N by now rewrite N.Div0.div_div.
  replace (n / 1000)%N with (n / 10 / 10 / 10)%N by now rewrite !N.Div0.div_div.
  pose proof (N.div_mod' n 10) as E0.
  pose proof (N.div_mod' (n / 10) 10) as E1.
  pose proof (N.div_mod' (n / 10 / 10) 10) as E2.
  assert (Q : (n / 10 / 10 / 10 < 10)%N).
  { rewrite !N.Div0.div_div.
    apply N.Div0.div_lt_upper_bound; exact H. }
  rewrite (N.mod_small _ _ Q).
  revert E0 E1 E2 Q.
  generalize (n mod 10)%N ((n / 10) mod 10)%N ((n / 10 / 10) mod 10)%N
             (n / 10 / 10 / 10)%N.
  generalize (n / 10 / 10)%N. generalize (n / 10)%N.
  intros a1 a2 r0 r1 r2 a3 E0 E1 E2 Q. lia.
Qed.

(** The text of the clock's date reads as that date: four digits that
    write the year, two that write the month, two that write the day,
    with a dash between them. *)
Lemma strftime_reads_back (d : date) :
  calendar_date d -> reads_as (strftime_Ymd d) d.
Proof.
  intros (Hy & Hm & Hd).
  assert (Hy' : (year d < 10000)%N) by lia.
  assert (Hm' : (month d < 100)%N) by lia.
  assert (Hd' : (day d < 100)%N) by lia.
  exists [digit (year d / 1000); digit (year d / 100); digit (year d / 10);
          digit (year d)],
         [digit (month d / 10); digit (month d)],
         [digit (day d / 10); digit (day d)].
  split; [reflexivity|]. do 3 (split; [reflexivity|]).
  split; [repeat constructor; apply digit_ascii|].
  split; [now apply number_digits4|].
  split; now apply number_digits2.
Qed.

Example strftime_example :
  strftime_Ymd {| year := 2026; month := 11; day := 3 |} = lit "2026-11-03".
Proof. reflexivity. Qed.

Lemma date_text_ascii (d : str) : date_text ascii_digit d -> date_text ud d.
Proof.
  intros (y & mo & dd & E & Ly & Lm & Ld & Hy & Hm & Hd).
  exists y, mo, dd. repeat split; auto;
    eapply Forall_impl; try eassumption; apply ascii_decimal.
Qed.

(** Every occurrence of a dated name in the text is a match of the
    pattern at its position, and conversely. *)
Lemma dated_at_match (filename a b' : str) (m : Re.groups) :
  filename = a ++ b' ->
  (Re.re_match (date_pattern ud) b' = Some m <->
   exists d post, dated_at ud filename a d post /\ m = Some d /\
                  b' = lit "QA_Log_" ++ d ++ lit ".md" ++ post).
Proof.
  intros ->. rewrite re_match_date. split.
  - intros (d & post & -> & T & ->). exists d, post.
    repeat split; auto.
  - intros (d & post & [_ T] & -> & ->). now exists d, post.
Qed.

(** The first dated name of the text gives the date. *)
Lemma extract_date_first (w : world) (filename a d b : str) :
  dated_at ud filename a d b ->
  (forall a' d' b', dated_at ud filename a' d' b' -> length a <= length a') ->
  extract_date_from_filename ud w filename = Some d.
Proof.
  intros [E T] Hmin. unfold extract_date_from_filename.
  assert (S : Re.search (date_pattern ud) filename = Some (Some d)).
  { apply search_Some.
    exists a, (lit "QA_Log_" ++ d ++ lit ".md" ++ b).
    split; [exact E|]. split.
    - apply re_match_date. now exists d, b.
    - intros a' b' E' L.
      destruct (Re.re_match (date_pattern ud) b') as [m|] eqn:M;
        [|reflexivity].
      apply (@dated_at_match _ _ _ m E') in M as (d' & post & D & _ & _).
      specialize (Hmin a' d' post D). lia. }
  now rewrite S.
Qed.

(** Without a dated name in the text the date is the one of the
    clock. *)
Lemma extract_date_fallback (w : world) (filename : str) :
  (forall a d b, ~ dated_at ud filename a d b) ->
  extract_date_from_filename ud w filename = Some (strftime_Ymd (today w)).
Proof.
  intros H. unfold extract_date_from_filename.
  assert (S : Re.search (date_pattern ud) filename = None).
  { apply search_None. intros a b' E.
    destruct (Re.re_match (date_pattern ud) b') as [m|] eqn:M;
      [|reflexivity].
    apply (@dated_at_match _ _ _ m E) in M as (d' & post & D & _ & _).
    now destruct (H a d' post). }
  now rewrite S.
Qed.

(** A text in which the search finds nothing has no dated name. *)
Lemma search_none_undated (filename : str) :
  Re.search (date_pattern ud) filename = None ->
  forall a d b, ~ dated_at ud filename a d b.
Proof.
  intros S a d b [E T].
  pose proof (proj1 (search_None _ _) S a _ E) as M.
  assert (M' : Re.re_match (date_pattern ud)
                 (lit "QA_Log_" ++ d ++ lit ".md" ++ b) = Some (Some d)).
  { apply re_match_date. now exists d, b. }
  congruence.
Qed.

Lemma extract_date_cases (w : world) (filename : str) :
  (exists a d b, dated_at ud filename a d b /\
                 extract_date_from_filename ud w filename = Some d) \/
  ((forall a d b, ~ dated_at ud filename a d b) /\
   extract_date_from_filename ud w filename = Some (strftime_Ymd (today w))).
Proof.
  unfold extract_date_from_filename.
  destruct (Re.search (date_pattern ud) filename) as [m|] eqn:S.
  - left. apply search_Some in S as (a & b' & E & M & _).
    apply (@dated_at_match _ _ _ m E) in M as (d & post & D & -> & _).
    now exists a, d, post.
  - right. split; [|reflexivity].
    intros a d b [E T].
    pose proof (proj1 (search_None _ _) S a _ E) as M.
    assert (M' : Re.re_match (date_pattern ud)
                   (lit "QA_Log_" ++ d ++ lit ".md" ++ b) = Some (Some d)).
    { apply re_match_date. now exists d, b. }
    congruence.
Qed.

(** C5: the date extractor returns the date text of the name when the
    pattern matches it, as it stands and unchecked, and otherwise the
    current local date in the form YYYY-MM-DD: for a date of the
    calendar, four digits that write the year of the clock's date, a
    dash, two digits that write its month, a dash, two digits that
    write its day.  The name [QA_Log_2024-03-01.md] gives
    [2024-03-01]. *)
Theorem extract_date_matched_or_today (w : world) :
  (forall d, date_text ud d ->
     extract_date_from_filename ud w (lit "QA_Log_" ++ d ++ lit ".md")
     = Some d) /\
  (forall filename,
     (exists a d b, dated_at ud filename a d b /\
                    extract_date_from_filename ud w filename = Some d) \/
     ((forall a d b, ~ dated_at ud filename a d b) /\
      extract_date_from_filename ud w filename
      = Some (strftime_Ymd (today w)))) /\
  date_text ascii_digit (strftime_Ymd (today w)) /\
  (calendar_date (today w) ->
   forall filename,
     (forall a d b, ~ dated_at ud filename a d b) ->
     exists text,
       extract_date_from_filename ud w filename = Some text /\
       reads_as text (today w)) /\
  extract_date_from_filename ud w (lit "QA_Log_2024-03-01.md")
  = Some (lit "2024-03-01").
Proof.
  assert (W : forall d, date_text ud d ->
     extract_date_from_filename ud w (lit "QA_Log_" ++ d ++ lit ".md")
     = Some d).
  { intros d T. apply (@extract_date_first w _ [] d []).
    - split; [|exact T]. now rewrite app_nil_r.
    - intros; simpl; lia. }
  split; [exact W|]. split; [apply extract_date_cases|].
  split; [apply strftime_date_text|].
  split.
  { intros Hc filename U. exists (strftime_Ymd (today w)).
    split; [exact (extract_date_fallback w U)|].
    now apply strftime_reads_back. }
  apply (W (lit "2024-03-01")). apply date_text_ascii.
  exists (lit "2024"), (lit "03"), (lit "01").
  repeat split; repeat constructor.
Qed.

Lemma search_date_first (filename d : str) :
  Re.search (date_pattern ud) filename = Some (Some d) ->
  exists a b,
    dated_at ud filename a d b /\
    forall a' d' b', dated_at ud filename a' d' b' -> length a <= length a'.
Proof.
  intros S. apply search_Some in S as (a & s & E & M & Hmin).
  apply (@dated_at_match _ _ _ _ E) in M as (d0 & post & D & [= <-] & _).
  exists a, post. split; [exact D|].
  intros a' d' b' [E' T'].
  destruct (le_lt_dec (length a) (length a')) as [L|L]; [exact L|].
  specialize (Hmin a' _ E' L).
  assert (M' : Re.re_match (date_pattern ud)
                 (lit "QA_Log_" ++ d' ++ lit ".md" ++ b') = Some (Some d')).
  { apply re_match_date. now exists d', b'. }
  congruence.
Qed.

(** C9: the pattern is searched for, not anchored: when the name holds
    [QA_Log_], a date text and [.md] anywhere, the extractor returns the
    date text of the first such place, not the date of the clock. *)
Theorem extract_date_embedded (w : world) (filename : str) :
  (exists a d b, dated_at ud filename a d b) ->
  exists a d b,
    dated_at ud filename a d b /\
    (forall a' d' b',
       dated_at ud filename a' d' b' -> length a <= length a') /\
    extract_date_from_filename ud w filename = Some d.
Proof.
  intros (a0 & d0 & b0 & E0 & T0). unfold extract_date_from_filename.
  destruct (Re.search (date_pattern ud) filename) as [m|] eqn:S.
  - assert (Hm : exists d, m = Some d).
    { apply search_Some in S as (a & s & E & M & _).
      apply (@dated_at_match _ _ _ _ E) in M as (d & _ & _ & -> & _).
      now exists d. }
    destruct Hm as [d ->].
    destruct (@search_date_first _ _ S) as (a & b & D & Hmin).
    now exists a, d, b.
  - exfalso.
    pose proof (proj1 (search_None _ _) S a0 _ E0) as M.
    assert (M' : Re.re_match (date_pattern ud)
                   (lit "QA_Log_" ++ d0 ++ lit ".md" ++ b0)
                 = Some (Some d0)).
    { apply re_match_date. now exists d0, b0. }
    congruence.
Qed.

End Dates.

(** The example of the specification, and the fallback on a name
    without a date, on the second of March 2024. *)
Lemma extract_date_matched_or_today_witness :
  extract_date_from_filename ascii_digit SAMPLE_WORLD
    (lit "QA_Log_2024-03-01.md")
  = Some (lit "2024-03-01") /\
  exists text,
    extract_date_from_filename ascii_digit SAMPLE_WORLD (lit "notes.txt")
    = Some text /\
    reads_as text {| year := 2024; month := 3; day := 2 |}.
Proof.
  pose proof (@extract_date_matched_or_today ascii_digit (fun c H => H)
                SAMPLE_WORLD) as (_ & _ & _ & F & E).
  split; [exact E|].
  apply F.
  - repeat split; apply N.leb_le; reflexivity.
  - exact (@search_none_undated ascii_digit (lit "notes.txt") eq_refl).
Defined.

(** The example of an embedded date. *)
Lemma extract_date_embedded_witness :
  exists a d b,
    dated_at ascii_digit (lit "backup_QA_Log_2024-03-01.md.old") a d b /\
    (forall a' d' b',
       dated_at ascii_digit (lit "backup_QA_Log_2024-03-01.md.old") a' d' b'
       -> length a <= length a') /\
    extract_date_from_filename ascii_digit SAMPLE_WORLD
      (lit "backup_QA_Log_2024-03-01.md.old") = Some d.
Proof.
  apply (@extract_date_embedded ascii_digit SAMPLE_WORLD
           (lit "backup_QA_Log_2024-03-01.md.old")).
  exists (lit "backup_"), (lit "2024-03-01"), (lit ".old").
  split; [reflexivity|].
  exists (lit "2024"), (lit "03"), (lit "01").
  repeat split; repeat constructor.
Defined.

Example extract_date_backup :
  extract_date_from_filename ascii_digit SAMPLE_WORLD
    (lit "backup_QA_Log_2024-03-01.md.old")
  = Some (lit "2024-03-01").
Proof. reflexivity. Qed.

(** The date text is not checked to be a date of the calendar. *)
Example extract_date_unchecked :
  extract_date_from_filename ascii_digit SAMPLE_WORLD
    (lit "QA_Log_2024-13-45.md")
  = Some (lit "2024-13-45").
Proof. reflexivity. Qed.

(** Example 2 of the specification. *)
Example extract_date_notes :
  extract_date_from_filename ascii_digit SAMPLE_WORLD (lit "notes.txt")
  = Some (lit "2024-03-02").
Proof. reflexivity. Qed.
(** ** The whole run *)

Section Run.

Variable unicode_decimal : char -> bool.
Variable stdout_write : str -> option exn.

Local Abbreviation ud := unicode_decimal.
Local Abbreviation out := stdout_write.

Lemma log_name_truthy (name : str) : log_name name -> truthy name = true.
Proof. intros [mid ->]. reflexivity. Qed.


Lemma extract_date_total (w : world) (filename : str) :
  exists d, extract_date_from_filename ud w filename = Some d.
Proof.
  destruct (extract_date_cases ud w filename)
    as [(a & d & b & _ & E)|[_ E]]; eauto.
Qed.





(** Nothing is written before the read: standard output plays no part
    in it. *)
Example main_unreadable_any_stdout (stdout : str -> option exn) :
  main ascii_digit stdout UNREADABLE_WORLD = Raise OSError.
Proof. reflexivity. Qed.


End Run.


(** A whole run on the sample directory. *)
Example main_sample :
  main ascii_digit utf8_stdout SAMPLE_WORLD =
  Ok (unlines
        [REPORT_TITLE (lit "2024-02-15"); [];
         KEY_TAKEAWAYS_HEADING;
         lit "- wrote tests"; lit "- login fix"; lit "- slow start"; [];
         BUGS_FOUND_HEADING;
         lit "- crash on save"; [];
         PROGRESS_SUMMARY_HEADING;
         lit "- login fix"; lit "- slow start"; [];
         NEXT_STEPS_HEADING;
         lit "- fix crash"] ++ [NL]).
Proof. vm_compute. reflexivity. Qed.

(** The message and the report hold characters outside ASCII: on a
    standard output in ASCII the run ends with the exception of the
    write, with or without a log. *)
Example main_ascii_stdout :
  main ascii_digit ascii_stdout SAMPLE_WORLD = Raise UnicodeEncodeError /\
  main ascii_digit ascii_stdout NO_LOG_WORLD = Raise UnicodeEncodeError /\
  main ascii_digit utf8_stdout NO_LOG_WORLD = Ok (NO_LOG_MESSAGE ++ [NL]).
Proof. repeat split; vm_compute; reflexivity. Qed.

(** * Further properties of the code *)

(** ** The parser *)

Section StripEnds.

Variable p : char -> bool.

Lemma lstrip_by_decomp (s : str) :
  exists a, s = a ++ lstrip_by p s /\ Forall (fun c => p c = true) a.
Proof.
  induction s as [|c s IH]; simpl.
  - now exists [].
  - destruct (p c) eqn:Hc.
    + destruct IH as (a & E & F). exists (c :: a). split.
      * simpl. now rewrite <- E.
      * now constructor.
    + now exists [].
Qed.

Lemma lstrip_by_head (s t : str) (c : char) :
  lstrip_by p s = c :: t -> p c = false.
Proof.
  induction s as [|d s IH]; simpl; [discriminate|].
  destruct (p d) eqn:Hd; [assumption|]. now intros [= <- _].
Qed.

Lemma rstrip_by_decomp (s : str) :
  exists b, s = rstrip_by p s ++ b /\ Forall (fun c => p c = true) b.
Proof.
  unfold rstrip_by. destruct (lstrip_by_decomp (rev s)) as (a & E & F).
  exists (rev a). split.
  - rewrite <- rev_app_distr, <- E. now rewrite rev_involutive.
  - now apply Forall_rev.
Qed.

Lemma rstrip_by_last (s u : str) (z : char) :
  rstrip_by p s = u ++ [z] -> p z = false.
Proof.
  unfold rstrip_by. intros E.
  apply (f_equal (@rev char)) in E. rewrite rev_involutive in E.
  rewrite rev_app_distr in E. simpl in E.
  now apply lstrip_by_head in E.
Qed.

Lemma rstrip_by_head (c : char) (t : str) :
  p c = false -> exists t', rstrip_by p (c :: t) = c :: t'.
Proof.
  intros Hc. destruct (rstrip_by_decomp (c :: t)) as (b & E & F).
  destruct (rstrip_by p (c :: t)) as [|c' t'].
  - simpl in E. subst b. inversion F; congruence.
  - injection E as <- _. now exists t'.
Qed.

(** A stripped string is empty, or begins and ends with characters that
    are not stripped. *)
Lemma strip_by_ends (s : str) :
  strip_by p s = [] \/
  exists c t u z,
    strip_by p s = c :: t /\ strip_by p s = u ++ [z] /\
    p c = false /\ p z = false.
Proof.
  unfold strip_by. destruct (lstrip_by p s) as [|c t] eqn:L.
  - now left.
  - right. pose proof (lstrip_by_head _ L) as Hc.
    destruct (rstrip_by_head t Hc) as [t' R].
    assert (N : rstrip_by p (c :: t) <> []) by (rewrite R; discriminate).
    pose proof (app_removelast_last c N) as E.
    exists c, t', (removelast (rstrip_by p (c :: t))),
      (last (rstrip_by p (c :: t)) c).
    repeat split; auto. now apply rstrip_by_last in E.
Qed.

Lemma strip_by_idempotent (s : str) :
  strip_by p (strip_by p s) = strip_by p s.
Proof.
  destruct (strip_by_ends s) as [E|(c & t & u & z & E1 & E2 & Hc & Hz)].
  - now rewrite E.
  - unfold strip_by at 1. rewrite E1 at 1.
    rewrite lstrip_by_keep by assumption. rewrite <- E1, E2.
    now apply rstrip_by_keep.
Qed.

(** What is left of a string after stripping occurs in the string. *)
Lemma strip_by_occurs (s : str) : occurs (strip_by p s) s.
Proof.
  unfold strip_by. destruct (lstrip_by_decomp s) as (a & E & _).
  destruct (rstrip_by_decomp (lstrip_by p s)) as (b & E' & _).
  exists a, b. now rewrite <- E', <- E.
Qed.

End StripEnds.

Lemma occurs_trans (a b c : str) : occurs a b -> occurs b c -> occurs a c.
Proof.
  intros (x & y & ->) (u & v & ->). exists (u ++ x), (y ++ v).
  now rewrite <- !app_assoc.
Qed.

Lemma split_nl_head_prefix (s l : str) (ls : list str) :
  split_nl s = l :: ls -> exists r, s = l ++ r.
Proof.
  revert l ls; induction s as [|c s IH]; simpl; intros l ls.
  - intros [= <- <-]. now exists [].
  - destruct (N.eqb c NL).
    + intros [= <- _]. now eexists.
    + destruct (split_nl s) as [|l0 ls0] eqn:E.
      * intros [= <- <-]. now exists s.
      * intros [= <- <-]. destruct (IH l0 ls0 eq_refl) as [r ->].
        now exists r.
Qed.

Lemma split_nl_occurs (s l : str) : In l (split_nl s) -> occurs l s.
Proof.
  revert l; induction s as [|c s IH]; simpl; intros l.
  - intros [<-|[]]. now exists [], [].
  - destruct (N.eqb c NL).
    + intros [<-|H].
      * now exists [], (c :: s).
      * destruct (IH l H) as (a & b & ->). now exists (c :: a), b.
    + destruct (split_nl s) as [|l0 ls0] eqn:E.
      * intros [<-|[]]. now exists [], s.
      * intros [<-|H].
        -- destruct (split_nl_head_prefix _ E) as [r ->].
           now exists [], r.
        -- destruct (IH l (or_intror H)) as (a & b & ->).
           now exists (c :: a), b.
Qed.

Lemma capture_prefix (s : str) : exists t, s = capture s ++ t.
Proof.
  induction s as [|c s IH]; cbn [capture].
  - now exists [].
  - destruct (starts_with (NL :: HASHES) (c :: s)).
    + now eexists.
    + destruct IH as [t E]. exists t. simpl. now rewrite <- E.
Qed.

(** The parser returns, for each label, what [section_items] says. *)
Lemma parse_content_entries (content : str) (d : dict) :
  parse_content content = Ok d ->
  d = List.map (fun section => (section, section_items content section))
        SECTION_NAMES.
Proof. rewrite parse_content_items. now intros [= <-]. Qed.

(** X1: for every text the parser returns normally (no exception
    whatever the text holds), and its result has the five labels as
    keys, in the order of the source, each with at least one item. *)
Theorem parse_content_five_sections (content : str) :
  exists d,
    parse_content content = Ok d /\
    keys d = SECTION_NAMES /\
    Forall (fun kv => snd kv <> []) d.
Proof.
  eexists; split; [apply parse_content_items|]. split; [reflexivity|].
  apply Forall_map. rewrite Forall_forall. intros section _.
  apply section_items_nonempty.
Qed.

Lemma placeholder_stripped (section : str) :
  In section SECTION_NAMES -> strip (placeholder section) = placeholder section.
Proof. intros [<-|[<-|[<-|[<-|[<-|[]]]]]]; reflexivity. Qed.

Lemma block_lines_stripped (block : str) :
  Forall (fun item => strip item = item) (block_lines block).
Proof.
  unfold block_lines. apply Forall_map. rewrite Forall_forall.
  intros l _. unfold strip_bullet, strip. apply strip_by_idempotent.
Qed.

(** X2: every item the parser returns is a single line and has no white
    space at its ends: stripping it again changes nothing. *)
Theorem parse_content_items_stripped (content : str) :
  exists d,
    parse_content content = Ok d /\
    forall section items item,
      In (section, items) d -> In item items ->
      one_line item /\ strip item = item.
Proof.
  eexists; split; [apply parse_content_items|].
  intros section items item Hd Hi.
  apply in_map_iff in Hd as (s & [= <- <-] & Hs).
  split.
  - pose proof (@section_items_one_line content s
                  (@section_names_one_line s Hs)) as O.
    rewrite Forall_forall in O. now apply O.
  - unfold section_items in Hi.
    destruct (find_after (heading s) content) as [rest|].
    + pose proof (block_lines_stripped (capture rest)) as B.
      destruct (block_lines (capture rest)) as [|l ls] eqn:E.
      * destruct Hi as [<-|[]]. now apply placeholder_stripped.
      * rewrite Forall_forall in B. now apply B.
    + destruct Hi as [<-|[]]. now apply placeholder_stripped.
Qed.

Lemma block_lines_occur (block item : str) :
  In item (block_lines block) -> occurs item block.
Proof.
  unfold block_lines. intros H.
  apply in_map_iff in H as (line & <- & Hl).
  apply filter_In in Hl as [Hl _].
  unfold strip_bullet, strip, strip_chars.
  eapply occurs_trans; [apply strip_by_occurs|].
  eapply occurs_trans; [apply strip_by_occurs|].
  eapply occurs_trans; [apply split_nl_occurs, Hl|].
  apply strip_by_occurs.
Qed.

(** X3: the parser invents nothing: an item is the placeholder of its
    label, or a piece of the text as it stands there. *)
Theorem parse_content_items_from_text (content : str) :
  exists d,
    parse_content content = Ok d /\
    forall section items item,
      In (section, items) d -> In item items ->
      item = placeholder section \/ occurs item content.
Proof.
  eexists; split; [apply parse_content_items|].
  intros section items item Hd Hi.
  apply in_map_iff in Hd as (s & [= <- <-] & Hs).
  unfold section_items in Hi.
  destruct (find_after (heading s) content) as [rest|] eqn:F.
  - destruct (block_lines (capture rest)) as [|l ls] eqn:E.
    + destruct Hi as [<-|[]]. now left.
    + right. rewrite <- E in Hi. apply block_lines_occur in Hi.
      eapply occurs_trans; [exact Hi|].
      destruct (capture_prefix rest) as [t Et].
      apply find_after_Some in F as (a & -> & _).
      exists (a ++ heading s), t. rewrite Et at 1.
      now rewrite <- !app_assoc.
  - destruct Hi as [<-|[]]. now left.
Qed.

(** X4: a label whose heading, with the newline that ends it, occurs
    nowhere in the text gets the placeholder as its only item. *)
Theorem parse_content_absent_heading (content section : str) :
  In section SECTION_NAMES ->
  ~ occurs (heading section) content ->
  exists d,
    parse_content content = Ok d /\
    getitem d section = Ok [placeholder section].
Proof.
  intros Hs H. eexists; split; [apply parse_content_items|].
  rewrite (@getitem_parsed content section Hs).
  now rewrite section_items_absent.
Qed.

Lemma parse_content_absent_heading_witness :
  exists d,
    parse_content EXAMPLE_LOG = Ok d /\
    getitem d TASKS_DONE = Ok [placeholder TASKS_DONE].
Proof.
  apply (@parse_content_absent_heading EXAMPLE_LOG TASKS_DONE).
  - simpl; auto.
  - apply (proj1 (find_after_None (heading TASKS_DONE) EXAMPLE_LOG)).
    reflexivity.
Defined.

(** X5: a heading that is followed by white space only, up to the next
    line that begins with [###] or to the end of the text, gets the
    placeholder. *)
Theorem parse_content_blank_section (content section pre gap tail : str) :
  In section SECTION_NAMES ->
  first_occurrence (heading section) content pre (gap ++ tail) ->
  Forall (fun c => isspace c = true) gap ->
  (tail = [] \/
   (exists g, gap = g ++ [NL]) /\ starts_with HASHES tail = true) ->
  exists d,
    parse_content content = Ok d /\
    getitem d section = Ok [placeholder section].
Proof.
  intros Hs F G T. eexists; split; [apply parse_content_items|].
  rewrite (@getitem_parsed content section Hs). f_equal.
  unfold section_items. rewrite (find_after_first F).
  unfold block_lines.
  assert (E : strip (capture (gap ++ tail)) = []).
  { apply strip_by_all. now apply capture_gap. }
  now rewrite E.
Qed.

Lemma parse_content_blank_section_witness :
  exists d,
    parse_content BLANK_SECTION_LOG = Ok d /\
    getitem d TASKS_DONE = Ok [placeholder TASKS_DONE].
Proof.
  destruct (@find_after_Some (heading TASKS_DONE) BLANK_SECTION_LOG
              ([NL] ++ heading BUGS_FOUND ++ lit "- x" ++ [NL]) eq_refl)
    as [pre F].
  apply (@parse_content_blank_section BLANK_SECTION_LOG TASKS_DONE pre
           [NL] (heading BUGS_FOUND ++ lit "- x" ++ [NL])).
  - simpl; auto.
  - exact F.
  - repeat constructor.
  - right. split; [now exists []|reflexivity].
Defined.

(** X6: the block of a heading is the whole line right behind the
    heading, whatever it begins with, and then the lines up to the first
    one that begins with [###]: a heading that stands directly under
    another one is taken as a line of the upper section. *)
Theorem search_section_first_line (content section pre rest : str) :
  first_occurrence (heading section) content pre rest ->
  exists l ls,
    split_nl rest = l :: ls /\
    Re.search (section_pattern section) content
    = Some (Some (join_nl (l :: before_heading ls))).
Proof.
  intros F. rewrite search_section, (find_after_first F), capture_lines.
  pose proof (split_nl_nonempty rest) as N.
  destruct (split_nl rest) as [|l ls]; [contradiction|].
  now exists l, ls.
Qed.

Lemma search_section_first_line_witness :
  exists l ls,
    split_nl (heading BUGS_FOUND ++ lit "- x" ++ [NL]
              ++ heading NEXT_STEPS ++ lit "- y") = l :: ls /\
    Re.search (section_pattern TASKS_DONE) ADJACENT_LOG
    = Some (Some (join_nl (l :: before_heading ls))).
Proof.
  destruct (@find_after_Some (heading TASKS_DONE) ADJACENT_LOG
              (heading BUGS_FOUND ++ lit "- x" ++ [NL]
               ++ heading NEXT_STEPS ++ lit "- y") eq_refl)
    as [pre F].
  exact (@search_section_first_line ADJACENT_LOG TASKS_DONE pre _ F).
Defined.

(** On [ADJACENT_LOG] the first section takes the second heading and
    its bullet. *)
Example parse_adjacent_log :
  parse_section ADJACENT_LOG TASKS_DONE
  = Ok [lit "### " ++ BUGS_FOUND; lit "x"].
Proof. vm_compute. reflexivity. Qed.

Lemma strip_prefix_long (q s e : str) :
  length q <= length s ->
  strip_prefix q (s ++ e) =
  match strip_prefix q s with
  | Some r => Some (r ++ e)
  | None => None
  end.
Proof.
  revert s; induction q as [|c q IH]; intros s L; [reflexivity|].
  destruct s as [|d s]; [simpl in L; lia|].
  simpl. destruct (N.eqb c d); [|reflexivity].
  apply IH. simpl in L; lia.
Qed.

Lemma find_after_length (q s r : str) :
  find_after q s = Some r -> length q <= length s.
Proof.
  intros F. apply find_after_Some in F as (a & [-> _]).
  rewrite !length_app. lia.
Qed.

(** Text added at the end of a string leaves the first occurrence where
    it is. *)
Lemma find_after_app (q s r e : str) :
  find_after q s = Some r -> find_after q (s ++ e) = Some (r ++ e).
Proof.
  revert r; induction s as [|c s IH]; intros r F.
  - pose proof (find_after_length _ _ F) as L.
    destruct q; [|simpl in L; lia]. simpl in F. injection F as <-.
    destruct e; reflexivity.
  - pose proof (find_after_length _ _ F) as L.
    cbn [find_after] in F. simpl app. cbn [find_after].
    change (c :: s ++ e) with ((c :: s) ++ e).
    rewrite (@strip_prefix_long q (c :: s) e L).
    destruct (strip_prefix q (c :: s)) as [r0|].
    + now injection F as <-.
    + now apply IH.
Qed.

(** A line that begins with [###], added at the end of a text, ends the
    block where the text ended it, or at the end of the text. *)
Lemma capture_closed (s x : str) :
  capture (s ++ NL :: HASHES ++ x) = capture s.
Proof.
  induction s as [|c s IH].
  - change ([] ++ NL :: HASHES ++ x) with (NL :: (HASHES ++ x)).
    rewrite capture_newline. unfold starts_with.
    now rewrite strip_prefix_app.
  - change ((c :: s) ++ NL :: HASHES ++ x)
      with (c :: (s ++ NL :: HASHES ++ x)).
    cbn [capture].
    assert (E : starts_with (NL :: HASHES) (c :: s ++ NL :: HASHES ++ x)
                = starts_with (NL :: HASHES) (c :: s)).
    { assert (Hh : HASHES = [35; 35; 35]%N) by reflexivity.
      destruct s as [|c1 [|c2 [|c3 s]]].
      1-3: simpl app; rewrite Hh; simpl app; rewrite !starts_with_cons;
        repeat match goal with
               | |- context [N.eqb ?a ?b] => is_var b; destruct (N.eqb a b)
               end; reflexivity.
      change (c :: (c1 :: c2 :: c3 :: s) ++ NL :: HASHES ++ x)
        with ((c :: c1 :: c2 :: c3 :: s) ++ NL :: HASHES ++ x).
      unfold starts_with. rewrite strip_prefix_long by (simpl; lia).
      now destruct (strip_prefix (NL :: HASHES) (c :: c1 :: c2 :: c3 :: s)). }
    rewrite E, IH. reflexivity.
Qed.

(** X15: only the first occurrence of a heading counts: when new lines
    that start with a line beginning with [###] are added at the end of
    a text, for instance a second copy of a section, no label whose
    heading the text already holds changes its items. *)
Theorem parse_content_later_text (content section x : str) :
  In section SECTION_NAMES ->
  occurs (heading section) content ->
  exists d d',
    parse_content content = Ok d /\
    parse_content (content ++ NL :: HASHES ++ x) = Ok d' /\
    getitem d' section = getitem d section.
Proof.
  intros Hs O. do 2 eexists.
  split; [apply parse_content_items|]. split; [apply parse_content_items|].
  rewrite !(@getitem_parsed _ section Hs). f_equal.
  unfold section_items.
  destruct (find_after (heading section) content) as [rest|] eqn:F.
  - rewrite (@find_after_app _ _ _ (NL :: HASHES ++ x) F).
    now rewrite capture_closed.
  - apply find_after_None in F. contradiction.
Qed.

Lemma parse_content_later_text_witness :
  exists d d',
    parse_content FULL_LOG = Ok d /\
    parse_content (FULL_LOG ++ NL :: HASHES ++ SECOND_COPY) = Ok d' /\
    getitem d' TASKS_DONE = getitem d TASKS_DONE.
Proof.
  apply (@parse_content_later_text FULL_LOG TASKS_DONE SECOND_COPY).
  - simpl; auto.
  - exists [].
    exists (lit "- wrote tests" ++ [NL; NL]
            ++ heading BUGS_FOUND ++ lit "- crash on save" ++ [NL]
            ++ heading FIXES_VERIFIED ++ lit "- login fix" ++ [NL]
            ++ heading OBSERVATIONS ++ lit "- slow start" ++ [NL]
            ++ heading NEXT_STEPS ++ lit "- fix crash" ++ [NL]).
    reflexivity.
Defined.

(** X16: round trip of the items.  When the section of a label is made
    of the lines [- <item>] of items that begin and end with a character
    other than a dash and white space, the parser returns exactly these
    items, in their order. *)
Theorem parse_content_items_roundtrip
        (content section : str) (items : list str) :
  In section SECTION_NAMES ->
  Forall clean_item items ->
  section_with content section (List.map bullet items) ->
  exists d,
    parse_content content = Ok d /\ getitem d section = Ok items.
Proof.
  intros Hs C S. eexists; split; [apply parse_content_items|].
  rewrite (@getitem_parsed content section Hs). f_equal.
  rewrite (@section_items_bullets _ _ _ S), map_map.
  rewrite <- (map_id items) at 2. apply map_ext_in.
  intros x Hx. apply strip_bullet_clean.
  rewrite Forall_forall in C. now apply C.
Qed.

Lemma parse_content_items_roundtrip_witness :
  exists d,
    parse_content FULL_LOG = Ok d /\
    getitem d BUGS_FOUND = Ok [lit "crash on save"].
Proof.
  apply (@parse_content_items_roundtrip FULL_LOG BUGS_FOUND
           [lit "crash on save"]).
  - simpl; auto 6.
  - constructor; [|constructor].
    exists 99%N, (lit "rash on save"), (lit "crash on sav"), 101%N.
    repeat split; reflexivity.
  - pose (next := heading NEXT_STEPS ++ lit "- fix crash" ++ [NL]).
    pose (obs := heading OBSERVATIONS ++ lit "- slow start" ++ [NL] ++ next).
    pose (fixes := heading FIXES_VERIFIED ++ lit "- login fix" ++ [NL]
                   ++ obs).
    one_bullet_section (lit "- crash on save" ++ [NL] ++ fixes)
      [NL] fixes (lit "- crash on sav") 101%N.
    right. split; [now exists []|reflexivity].
Defined.

(** ** The locator *)

(** X7: the locator depends on the set of names of the directory only,
    not on the order in which the directory lists them nor on
    repetitions. *)
Theorem find_latest_log_order_free (w w' : world) :
  (forall name, In name (listdir w) <-> In name (listdir w')) ->
  find_latest_log w = find_latest_log w'.
Proof.
  intros H.
  pose proof (find_latest_log_cases w) as C.
  pose proof (find_latest_log_cases w') as C'.
  destruct (find_latest_log w) as [m|], (find_latest_log w') as [m'|].
  - destruct C as (I & L & M), C' as (I' & L' & M').
    f_equal. apply lex_le_antisym.
    + apply M'; auto. now apply H.
    + apply M; auto. now apply H.
  - destruct C as (I & L & _). apply H in I. now destruct (C' m).
  - destruct C' as (I' & L' & _). apply H in I'. now destruct (C m').
  - reflexivity.
Qed.

Lemma find_latest_log_order_free_witness :
  find_latest_log (world_of LISTING_A) = find_latest_log (world_of LISTING_B).
Proof.
  apply find_latest_log_order_free.
  intros name. simpl. tauto.
Defined.

Lemma lex_le_app_prefix (p a b : str) :
  lex_le (p ++ a) (p ++ b) -> lex_le a b.
Proof.
  induction p as [|c p IH]; simpl; [auto|].
  inversion 1; subst; [lia|auto].
Qed.

Lemma ascii_digit_range (c : char) :
  ascii_digit c = true -> (48 <= c <= 57)%N.
Proof.
  unfold ascii_digit. intros H. apply andb_prop in H as [H1 H2].
  apply N.leb_le in H1, H2. lia.
Qed.

Lemma ascii_digit_value (c : char) :
  ascii_digit c = true -> exists v, c = (v + 48)%N /\ (v <= 9)%N.
Proof.
  intros H. apply ascii_digit_range in H. exists (c - 48)%N. lia.
Qed.

(** A date text of ASCII digits, character by character, each digit
    given by its value. *)
Lemma date_text_chars (d : str) :
  date_text ascii_digit d ->
  exists y1 y2 y3 y4 m1 m2 d1 d2,
    d = List.map (fun v => (v + 48)%N) [y1; y2; y3; y4]
        ++ DASH :: List.map (fun v => (v + 48)%N) [m1; m2]
        ++ DASH :: List.map (fun v => (v + 48)%N) [d1; d2] /\
    Forall (fun v => (v <= 9)%N) [y1; y2; y3; y4; m1; m2; d1; d2].
Proof.
  intros (y & m & dd & -> & Ly & Lm & Ld & Hy & Hm & Hd).
  destruct y as [|y1 [|y2 [|y3 [|y4 [|]]]]]; try discriminate Ly.
  destruct m as [|m1 [|m2 [|]]]; try discriminate Lm.
  destruct dd as [|d1 [|d2 [|]]]; try discriminate Ld.
  unfold all_digits in *.
  repeat match goal with
         | H : Forall _ (_ :: _) |- _ => inversion_clear H
         end.
  repeat match goal with
         | H : ascii_digit ?c = true |- _ =>
             apply ascii_digit_value in H as (? & -> & ?)
         end.
  do 8 eexists. split; [reflexivity|]. repeat constructor; assumption.
Qed.

(** For the names of dated logs the order of the names is the order of
    the dates. *)
Lemma dated_name_order (d d' : str) :
  date_text ascii_digit d -> date_text ascii_digit d' ->
  lex_le (dated_name d) (dated_name d') ->
  (date_number d <= date_number d')%N.
Proof.
  intros T T' H. unfold dated_name in H. apply lex_le_app_prefix in H.
  apply date_text_chars in T as (y1 & y2 & y3 & y4 & m1 & m2 & d1 & d2
                                 & -> & R).
  apply date_text_chars in T' as (z1 & z2 & z3 & z4 & n1 & n2 & e1 & e2
                                  & -> & R').
  repeat match goal with
         | H : Forall _ (_ :: _) |- _ => inversion_clear H
         end.
  unfold date_number, number, digit_value.
  cbn [List.map app firstn skipn fold_left]. rewrite !N.add_sub.
  cbn [List.map app] in H.
  repeat match goal with
         | H : lex_le (_ :: _) (_ :: _) |- _ =>
             inversion H; subst; clear H; [lia|]
         end.
  lia.
Qed.

Lemma date_text_length (p : char -> bool) (d : str) :
  date_text p d -> length d = 10.
Proof.
  intros (y & m & dd & -> & Ly & Lm & Ld & _).
  rewrite !length_app. simpl. lia.
Qed.

Section LatestDate.

Variable unicode_decimal : char -> bool.

Hypothesis ascii_decimal :
  forall c, ascii_digit c = true -> unicode_decimal c = true.

Local Abbreviation ud := unicode_decimal.

(** X8: when every log of the directory is named [QA_Log_<date>.md]
    with a date text of ASCII digits, the log the locator returns is the
    one of the latest date, and the date extractor gives this date back
    from its name. *)
Theorem find_latest_log_latest_date (w : world) (m : str) :
  (forall name, In name (listdir w) -> log_name name ->
     exists d, name = dated_name d /\ date_text ascii_digit d) ->
  find_latest_log w = Some m ->
  exists d,
    m = dated_name d /\ date_text ascii_digit d /\
    extract_date_from_filename ud w m = Some d /\
    forall d', date_text ascii_digit d' -> In (dated_name d') (listdir w) ->
               (date_number d' <= date_number d)%N.
Proof.
  intros H F. pose proof (find_latest_log_cases w) as C. rewrite F in C.
  destruct C as (I & L & M). destruct (H m I L) as (d & -> & T).
  exists d. repeat split; auto.
  - apply (@extract_date_first ud w (dated_name d) [] d []).
    + split; [unfold dated_name; now rewrite app_nil_r|].
      now apply (date_text_ascii ud ascii_decimal).
    + intros; simpl; lia.
  - intros d' T' I'. apply dated_name_order; auto.
    apply M; auto. now exists d'.
Qed.

(** X9: the date extractor always returns a string, never [None], and
    the string is always a date text: ten characters, digits but for
    the two dashes. *)
Theorem extract_date_always_date_text (w : world) (filename : str) :
  exists d,
    extract_date_from_filename ud w filename = Some d /\
    date_text ud d /\ length d = 10.
Proof.
  destruct (extract_date_cases ud w filename)
    as [(a & d & b & [_ T] & E)|[_ E]].
  - exists d. split; [exact E|]. split; [exact T|].
    now apply date_text_length in T.
  - exists (strftime_Ymd (today w)).
    pose proof (date_text_ascii ud ascii_decimal
                  (strftime_date_text (today w))) as T.
    split; [exact E|]. split; [exact T|].
    now apply date_text_length in T.
Qed.

End LatestDate.

Lemma find_latest_log_latest_date_witness :
  exists d,
    lit "QA_Log_2024-02-15.md" = dated_name d /\
    date_text ascii_digit d /\
    extract_date_from_filename ascii_digit (world_of LISTING_A)
      (lit "QA_Log_2024-02-15.md") = Some d /\
    forall d', date_text ascii_digit d' ->
               In (dated_name d') (listdir (world_of LISTING_A)) ->
               (date_number d' <= date_number d)%N.
Proof.
  apply (@find_latest_log_latest_date ascii_digit (fun c H => H)
           (world_of LISTING_A) (lit "QA_Log_2024-02-15.md")).
  - intros name [<-|[<-|[<-|[]]]] L.
    + exists (lit "2024-01-01"). split; [reflexivity|].
      exists (lit "2024"), (lit "01"), (lit "01").
      repeat split; repeat constructor.
    + destruct L as [mid E]. discriminate E.
    + exists (lit "2024-02-15"). split; [reflexivity|].
      exists (lit "2024"), (lit "02"), (lit "15").
      repeat split; repeat constructor.
  - reflexivity.
Defined.

Lemma extract_date_always_date_text_witness :
  exists d,
    extract_date_from_filename ascii_digit SAMPLE_WORLD (lit "notes.txt")
    = Some d /\
    date_text ascii_digit d /\ length d = 10.
Proof.
  exact (@extract_date_always_date_text ascii_digit (fun c H => H)
           SAMPLE_WORLD (lit "notes.txt")).
Defined.

(** ** The renderer *)

Lemma getitem_error (d : dict) (key : str) (e : exn) :
  getitem d key = Raise e -> e = KeyError key.
Proof.
  induction d as [|[k v] d IH]; simpl.
  - now intros [= <-].
  - destruct (str_eqb k key); [discriminate|exact IH].
Qed.

(** X10: the renderer needs the five keys and nothing else: it returns
    a report when they are all present, and otherwise raises [KeyError]
    for the first key that is missing in the order tasks, fixes,
    observations, next steps, bugs. *)
Theorem generate_report_missing_key (sections : dict) (date : str) :
  match generate_report sections date with
  | Ok _ =>
      forall section, In section SECTION_NAMES ->
                      exists v, getitem sections section = Ok v
  | Raise e =>
      exists before key after,
        LOOKUP_ORDER = before ++ key :: after /\
        e = KeyError key /\
        getitem sections key = Raise (KeyError key) /\
        forall section, In section before ->
                        exists v, getitem sections section = Ok v
  end.
Proof.
  unfold generate_report.
  destruct (getitem sections TASKS_DONE) as [t|e] eqn:Et; cbn [bind].
  2:{ pose proof (getitem_error _ _ Et) as ->.
      exists [], TASKS_DONE. eexists. repeat split; auto.
      intros s []. }
  destruct (getitem sections FIXES_VERIFIED) as [f|e] eqn:Ef; cbn [bind].
  2:{ pose proof (getitem_error _ _ Ef) as ->.
      exists [TASKS_DONE], FIXES_VERIFIED. eexists. repeat split; auto.
      intros s [<-|[]]; eauto. }
  destruct (getitem sections OBSERVATIONS) as [o|e] eqn:Eo; cbn [bind].
  2:{ pose proof (getitem_error _ _ Eo) as ->.
      exists [TASKS_DONE; FIXES_VERIFIED], OBSERVATIONS. eexists.
      repeat split; auto. intros s [<-|[<-|[]]]; eauto. }
  destruct (getitem sections NEXT_STEPS) as [n|e] eqn:En; cbn [bind].
  2:{ pose proof (getitem_error _ _ En) as ->.
      exists [TASKS_DONE; FIXES_VERIFIED; OBSERVATIONS], NEXT_STEPS. eexists.
      repeat split; auto. intros s [<-|[<-|[<-|[]]]]; eauto. }
  destruct (getitem sections BUGS_FOUND) as [b|e] eqn:Eb; cbn [bind].
  2:{ pose proof (getitem_error _ _ Eb) as ->.
      exists [TASKS_DONE; FIXES_VERIFIED; OBSERVATIONS; NEXT_STEPS],
        BUGS_FOUND, [].
      repeat split; auto. intros s [<-|[<-|[<-|[<-|[]]]]]; eauto. }
  intros s [<-|[<-|[<-|[<-|[<-|[]]]]]]; eauto.
Qed.

Example generate_report_no_observations :
  generate_report NO_OBSERVATIONS (lit "2024-03-01")
  = Raise (KeyError OBSERVATIONS).
Proof. reflexivity. Qed.

(** X11: a block of the report has one line [- <item>] per item, and an
    empty list of items still takes one line, an empty one. *)
Theorem list_block_lines (items : list str) :
  Forall one_line items ->
  split_nl (list_block items) =
  match items with
  | [] => [[]]
  | _ :: _ => List.map bullet items
  end.
Proof.
  intros H. destruct items as [|x items]; [reflexivity|].
  rewrite list_block_bullets. apply split_join; [|discriminate].
  apply Forall_map. eapply Forall_impl; [|exact H]. apply bullet_one_line.
Qed.

Lemma list_block_lines_witness :
  split_nl (list_block [lit "a"; []; lit "b c"])
  = [lit "- a"; lit "- "; lit "- b c"].
Proof.
  apply (@list_block_lines [lit "a"; []; lit "b c"]).
  repeat constructor; apply no_newline_one_line; reflexivity.
Defined.

(** The report of a mapping whose four blocks are not empty, line by
    line. *)
Lemma generate_report_lines (sections : dict) (date : str)
      (tasks bugs fixes obs next : list str) :
  has_sections sections tasks bugs fixes obs next ->
  bugs <> [] -> fixes ++ obs <> [] -> next <> [] ->
  generate_report sections date =
  Ok (unlines (report_lines date tasks bugs fixes obs next)).
Proof.
  intros H Nb Np Nn. rewrite (generate_report_blocks date H).
  f_equal. unfold report_lines.
  assert (Nk : tasks ++ fixes ++ obs <> []) by now apply app_nonempty_r.
  rewrite !unlines_app, !list_block_bullets, !unlines_cons.
  change (unlines []) with (@nil char).
  rewrite (join_unlines _ (map_nonempty bullet Nk)).
  rewrite (join_unlines _ (map_nonempty bullet Nb)).
  rewrite (join_unlines _ (map_nonempty bullet Np)).
  rewrite (join_unlines _ (map_nonempty bullet Nn)).
  rewrite <- !app_assoc. cbn [app]. rewrite app_nil_r. reflexivity.
Qed.

(** The report of what the parser returns. *)
Lemma generate_report_of_parsed (content date : str) :
  generate_report
    (List.map (fun section => (section, section_items content section))
       SECTION_NAMES) date
  = Ok (report_of content date).
Proof.
  apply generate_report_lines.
  - repeat split; apply getitem_parsed; simpl; auto 6.
  - apply section_items_nonempty.
  - apply app_nonempty_r, section_items_nonempty.
  - apply section_items_nonempty.
Qed.

(** ** The whole run *)

Section RunExtras.

Variable unicode_decimal : char -> bool.
Variable stdout_write : str -> option exn.

Local Abbreviation ud := unicode_decimal.
Local Abbreviation out := stdout_write.

(** The three ways a run can go. *)
Lemma main_run (w : world) :
  match find_latest_log w with
  | None => main ud out w = print out NO_LOG_MESSAGE
  | Some log_file =>
      match read_text w log_file with
      | Raise e => main ud out w = Raise e
      | Ok content =>
          exists date,
            extract_date_from_filename ud w log_file = Some date /\
            main ud out w = print out (report_of content date)
      end
  end.
Proof.
  pose proof (find_latest_log_cases w) as C. unfold main.
  destruct (find_latest_log w) as [f|]; [|reflexivity].
  destruct C as (_ & L & _). rewrite (log_name_truthy L). cbn [negb].
  unfold parse_log. destruct (read_text w f) as [content|e]; [|reflexivity].
  cbn [bind]. rewrite parse_content_items. cbn [bind].
  destruct (extract_date_total ud w f) as [date D].
  exists date. split; [exact D|]. rewrite D. cbn [format_value].
  now rewrite generate_report_of_parsed.
Qed.

(** X12: a run ends with an exception exactly when the read of the
    latest log raises it, or the print of the message (without a log)
    or of the report (with a log that was read) raises it; no text and
    no name makes the parser, the date extractor or the renderer
    raise. *)
Theorem main_raises_read_or_print (w : world) (e : exn) :
  main ud out w = Raise e <->
  (exists log_file,
     find_latest_log w = Some log_file /\ read_text w log_file = Raise e) \/
  (find_latest_log w = None /\ print out NO_LOG_MESSAGE = Raise e) \/
  (exists log_file content date,
     find_latest_log w = Some log_file /\
     read_text w log_file = Ok content /\
     extract_date_from_filename ud w log_file = Some date /\
     print out (report_of content date) = Raise e).
Proof.
  pose proof (main_run w) as R.
  destruct (find_latest_log w) as [f|].
  - destruct (read_text w f) as [content|e'] eqn:Rd.
    + destruct R as (date & D & ->). split.
      * intros P. right; right. now exists f, content, date.
      * intros [(f' & [= <-] & Rd')|[[[=] _]|
                 (f' & content' & date' & [= <-] & Rd' & D' & P)]];
          congruence.
    + rewrite R. split.
      * intros [= <-]. left. now exists f.
      * intros [(f' & [= <-] & Rd')|[[[=] _]|
                 (f' & content' & date' & [= <-] & Rd' & _)]];
          congruence.
  - rewrite R. split.
    + intros P. right; left. now split.
    + intros [(f' & [=] & _)|[[_ P]|(f' & c' & d' & [=] & _)]].
      exact P.
Qed.


(** X14: what a run prints when the latest log can be read: the
    template, filled with the date the extractor gives for the name of
    the log and with the items of the five sections of its text; when
    standard output takes it and the newline of [print], these are what
    the run writes, and it ends normally. *)
Theorem main_prints_report (w : world) (log_file content : str) :
  find_latest_log w = Some log_file ->
  read_text w log_file = Ok content ->
  exists date,
    extract_date_from_filename ud w log_file = Some date /\
    main ud out w = print out (report_of content date) /\
    (out (report_of content date) = None -> out [NL] = None ->
     main ud out w = Ok (report_of content date ++ [NL])).
Proof.
  intros F Rd. pose proof (main_run w) as R. rewrite F, Rd in R.
  destruct R as (date & D & M). exists date.
  split; [exact D|]. split; [exact M|].
  intros T N. rewrite M. unfold print. now rewrite T, N.
Qed.

End RunExtras.


Lemma main_prints_report_witness :
  main ascii_digit utf8_stdout SAMPLE_WORLD
  = Ok (report_of FULL_LOG (lit "2024-02-15") ++ [NL]).
Proof.
  destruct (@main_prints_report ascii_digit utf8_stdout SAMPLE_WORLD
              (lit "QA_Log_2024-02-15.md") FULL_LOG eq_refl eq_refl)
    as (date & D & _ & M).
  vm_compute in D. injection D as <-.
  apply M; vm_compute; reflexivity.
Defined.
